(** * Reback: a shallow embedding of the render/lifecycle engine

    Sources embedded here: [src/Component.ts], [src/Context.ts],
    [src/util.ts], and the cache classes [Cache], [HashCache] and
    [SingleEntryCache].  The engine is written against explicit state
    (a [World]), the hooks a component class overrides are taken from a
    class table, and every invocation of a hook is recorded in a trace. *)

From stdpp Require Import gmap strings list pretty.
From Stdlib Require Import ZArith Lia Bool.

Set Warnings "-register-all".

(** ** JavaScript values *)

(** The fragment of JavaScript values the engine can tell apart: primitives
    compared by value, objects compared by identity ([addr]).  [VPending] is
    an instance of [RenderPending], [VInterrupt] the singleton
    [RENDER_INTERRUPT], [VPromise] a [SyncPromise] object. Numbers are the
    integers plus [NaN]. *)
Inductive Val : Type :=
| VUndef
| VNull
| VBool (b : bool)
| VNum (n : Z)
| VNaN
| VStr (s : string)
| VObj (addr : nat) (props : list (string * Val))
| VPending (addr : nat)
| VInterrupt
| VPromise (p : nat).

(** [a === b] *)
Definition strict_eq (a b : Val) : bool :=
  match a, b with
  | VUndef, VUndef => true
  | VNull, VNull => true
  | VBool x, VBool y => Bool.eqb x y
  | VNum x, VNum y => (x =? y)%Z
  | VStr x, VStr y => String.eqb x y
  | VObj x _, VObj y _ => Nat.eqb x y
  | VPending x, VPending y => Nat.eqb x y
  | VInterrupt, VInterrupt => true
  | VPromise x, VPromise y => Nat.eqb x y
  | _, _ => false
  end.

(** [Number.isNaN(a)] *)
Definition isNaN (a : Val) : bool :=
  match a with VNaN => true | _ => false end.

(** Truthiness, as used by [if (x)] and [!x]. *)
Definition truthy (a : Val) : bool :=
  match a with
  | VUndef | VNull | VNaN => false
  | VBool b => b
  | VNum n => negb (n =? 0)%Z
  | VStr s => negb (String.eqb s "")
  | _ => true
  end.

Inductive JsType := TUndefined | TObject | TBoolean | TNumber | TString.

Definition typeof (a : Val) : JsType :=
  match a with
  | VUndef => TUndefined
  | VBool _ => TBoolean
  | VNum _ | VNaN => TNumber
  | VStr _ => TString
  | _ => TObject
  end.

Definition JsType_eqb (s t : JsType) : bool :=
  match s, t with
  | TUndefined, TUndefined | TObject, TObject | TBoolean, TBoolean
  | TNumber, TNumber | TString, TString => true
  | _, _ => false
  end.

(** [instanceof RenderPending] *)
Definition isRenderPending (a : Val) : bool :=
  match a with VPending _ => true | _ => false end.

(** ** Insertion-ordered maps ([Map] and plain objects)

    A JavaScript [Map] iterates in insertion order and [set] on an existing
    key keeps the key's position; children records rely on that order. *)
Section JMap.
Context {K V : Type} (eqb : K -> K -> bool).

Fixpoint jm_get (m : list (K * V)) (k : K) : option V :=
    match m with
    | [] => None
    | (k', v) :: r => if eqb k k' then Some v else jm_get r k
    end.

Definition jm_has (m : list (K * V)) (k : K) : bool :=
    match jm_get m k with Some _ => true | None => false end.

Fixpoint jm_set (m : list (K * V)) (k : K) (v : V) : list (K * V) :=
    match m with
    | [] => [(k, v)]
    | (k', v') :: r => if eqb k k' then (k', v) :: r else (k', v') :: jm_set r k v
    end.

Fixpoint jm_delete (m : list (K * V)) (k : K) : list (K * V) :=
    match m with
    | [] => []
    | (k', v') :: r => if eqb k k' then r else (k', v') :: jm_delete r k
    end.
End JMap.

Abbreviation sget := (jm_get String.eqb).
Abbreviation sset := (jm_set String.eqb).
Abbreviation nget := (jm_get Nat.eqb).
Abbreviation nhas := (jm_has Nat.eqb).
Abbreviation nset := (jm_set Nat.eqb).

(** ** util.ts *)

Definition SameValue := Val -> Val -> option string -> bool.

Definition sameValueZero : SameValue :=
  fun a b _ => strict_eq a b || (isNaN a && isNaN b).

Fixpoint string_index_props (i : nat) (s : string) : list (string * Val) :=
  match s with
  | EmptyString => []
  | String c r => (pretty i, VStr (String c EmptyString)) :: string_index_props (S i) r
  end.

(** The own enumerable properties a [for ... in] loop guarded by
    [hasOwnProperty] visits. *)
Definition ownProps (a : Val) : list (string * Val) :=
  match a with
  | VObj _ props => props
  | VStr s => string_index_props 0 s
  | _ => []
  end.

Definition prop (a : Val) (key : string) : Val :=
  match sget (ownProps a) key with Some v => v | None => VUndef end.

Definition hasOwnProperty (a : Val) (key : string) : bool :=
  jm_has String.eqb (ownProps a) key.

Definition sameShallow (sameValue : SameValue) (a b : Val) : bool :=
  if sameValue a b None then true
  else if negb (truthy a) || negb (truthy b) then false
  else if negb (JsType_eqb (typeof a) (typeof b)) then false
  else
    forallb (fun kv : string * Val =>
               hasOwnProperty b kv.1 && sameValue (prop a kv.1) (prop b kv.1) (Some kv.1))
            (ownProps a)
    && forallb (fun kv : string * Val => hasOwnProperty a kv.1) (ownProps b).

(** ** The bounded caches *)

(** [Cache]: linear scan with a key comparator; [entries\[0\]] is the front. *)
Module Cache.
Section WithValue.
Context {V : Type}.

Record t := mk {
      entries : list (Val * V);
      maxSize : Z;
      keyComparator : Val -> Val -> bool
    }.

Definition equals (a b : Val) : bool := strict_eq a b.

Definition create (maxSize : Z) (cmp : Val -> Val -> bool) : t :=
      mk [] maxSize cmp.

Definition getMaxSize (c : t) : Z := maxSize c.

Fixpoint findFrom (cmp : Val -> Val -> bool) (key : Val)
             (es : list (Val * V)) (i : Z) : Z :=
      match es with
      | [] => (-1)%Z
      | e :: r => if cmp key e.1 then i else findFrom cmp key r (i + 1)%Z
      end.

Definition _findEntry (c : t) (key : Val) : Z :=
      findFrom (keyComparator c) key (entries c) 0%Z.

Definition setValueAt (es : list (Val * V)) (i : nat) (value : V) : list (Val * V) :=
      match es !! i with
      | Some e => <[i := (e.1, value)]> es
      | None => es
      end.

Definition setEntry (c : t) (key : Val) (value : V) : t :=
      let existingIndex := _findEntry c key in
      if (0 <=? existingIndex)%Z then
        mk (setValueAt (entries c) (Z.to_nat existingIndex) value) (maxSize c) (keyComparator c)
      else
        let size := getMaxSize c in
        let es1 := if negb (size =? 0)%Z then (key, value) :: entries c else entries c in
        let es2 := if (0 <=? size)%Z && (size <? Z.of_nat (length es1))%Z
                   then removelast es1 else es1 in
        mk es2 (maxSize c) (keyComparator c).

Definition getEntry (c : t) (key : Val) : option V :=
      let index := _findEntry c key in
      if (0 <=? index)%Z then snd <$> (entries c !! Z.to_nat index) else None.

Definition getSize (c : t) : Z := Z.of_nat (length (entries c)).

Definition empty (c : t) : t := mk [] (maxSize c) (keyComparator c).
End WithValue.
Arguments t : clear implicits.
End Cache.

(** [HashCache]: entries keyed by the hash of the key, [keysOrder] remembers
    insertion order with holes ([None]) for deleted keys. *)
Module HashCache.
Section WithValue.
Context {V : Type}.

Record t := mk {
      entries : list (string * V);
      keysOrder : list (option string);
      maxSize : Z;
      keyHash : Val -> string
    }.

Definition create (maxSize : Z) (keyHash : Val -> string) : t :=
      mk [] [] maxSize keyHash.

Definition getMaxSize (c : t) : Z := maxSize c.

Definition size (c : t) : Z := Z.of_nat (length (entries c)).

    (** The eviction loop: the first slot of [keysOrder] holding a non-empty
        hash different from [hash] is deleted and turned into a hole. *)
Fixpoint evictFirst (hash : string) (es : list (string * V))
             (order : list (option string)) : list (string * V) * list (option string) :=
      match order with
      | [] => (es, [])
      | slot :: r =>
          match slot with
          | Some keyToDelete =>
              if negb (String.eqb keyToDelete "") && negb (String.eqb keyToDelete hash)
              then (jm_delete String.eqb es keyToDelete, None :: r)
              else let '(es', r') := evictFirst hash es r in (es', slot :: r')
          | None => let '(es', r') := evictFirst hash es r in (es', slot :: r')
          end
      end.

Definition setEntry (c : t) (key : Val) (value : V) : t :=
      let hash := keyHash c key in
      let limit := getMaxSize c in
      let '(es, order) :=
        if (0 <=? limit)%Z && (limit <=? size c)%Z
        then evictFirst hash (entries c) (keysOrder c)
        else (entries c, keysOrder c) in
      if negb (limit =? 0)%Z then
        let order' := if jm_has String.eqb es hash then order else order ++ [Some hash] in
        mk (sset es hash value) order' (maxSize c) (keyHash c)
      else mk es order (maxSize c) (keyHash c).

Definition getEntry (c : t) (key : Val) : option V :=
      sget (entries c) (keyHash c key).

Definition empty (c : t) : t := mk [] [] (maxSize c) (keyHash c).

Definition getSize (c : t) : Z := size c.
End WithValue.
Arguments t : clear implicits.
End HashCache.

(** [SingleEntryCache]: at most one entry, identified by the hash of its key. *)
Module SingleEntryCache.
Section WithValue.
Context {V : Type}.

Record t := mk {
      keyHash : option string;
      value : option V;
      getKeyHash : Val -> string
    }.

Definition create (getKeyHash : Val -> string) : t := mk None None getKeyHash.

Definition setEntry (c : t) (key : Val) (v : V) : t :=
      mk (Some (getKeyHash c key)) (Some v) (getKeyHash c).

Definition getEntry (c : t) (key : Val) : option V :=
      match keyHash c with
      | None => None
      | Some h => if String.eqb (getKeyHash c key) h then value c else None
      end.

Definition empty (c : t) : t := mk None None (getKeyHash c).

Definition getSize (c : t) : Z :=
      match keyHash c with None => 0%Z | Some _ => 1%Z end.

Definition getMaxSize (c : t) : Z := 1%Z.
End WithValue.
Arguments t : clear implicits.
End SingleEntryCache.

(** ** Context.ts *)

(** Bit fields of used context attributes: an array of numbers, thirty bits
    per element, indexed through the process-wide table of attribute names. *)
Definition BITS_PER_ELEMENT : Z := 30.

(** [bitfield\[i\]], [undefined] read as [0] by the bit operators. *)
Definition bf_nth (bitfield : list Z) (i : nat) : Z := default 0%Z (bitfield !! i).

Definition setBit (bitfield : list Z) (index : nat) : list Z :=
  let elementIndex := (index / 30)%nat in
  let grown := if (length bitfield <=? elementIndex)%nat
               then bitfield ++ replicate (S elementIndex - length bitfield) 0%Z
               else bitfield in
  <[elementIndex := Z.lor (bf_nth grown elementIndex)
                          (Z.shiftl 1 (Z.of_nat (index mod 30)))]> grown.

(** The inner loop of [anyUsedAttribute]: bits [j .. 29] of one element. *)
Fixpoint anyUsedBit (names : list string) (callback : string -> bool)
         (i : nat) (element : Z) (j : nat) (count : nat) : bool :=
  match count with
  | O => false
  | S count' =>
      if negb (Z.land element (Z.shiftl 1 (Z.of_nat j)) =? 0)%Z
         && callback (default EmptyString (names !! (i * 30 + j)%nat))
      then true
      else anyUsedBit names callback i element (S j) count'
  end.

Fixpoint anyUsedFrom (names : list string) (callback : string -> bool)
         (i : nat) (bitfield : list Z) : bool :=
  match bitfield with
  | [] => false
  | element :: rest =>
      if negb (element =? 0)%Z && anyUsedBit names callback i element 0 30
      then true
      else anyUsedFrom names callback (S i) rest
  end.

(** [names] is the table [contextNamesByKey]. *)
Definition anyUsedAttribute (names : list string) (bitfield : list Z)
           (callback : string -> bool) : bool :=
  anyUsedFrom names callback 0 bitfield.

Fixpoint orPrefix (target source : list Z) : list Z :=
  match target, source with
  | t :: tr, s :: sr => Z.lor t s :: orPrefix tr sr
  | [], _ => source
  | _, [] => target
  end.

(** Element-wise or into [target], which grows to the length of [source]. *)
Definition addUsedContextAttributes (target source : list Z) : list Z :=
  orPrefix target source.

Module Context.

(** A context object: [id] is the identity of the object, so that
    [a === b] on contexts is equality of [id]; [attributes] is never mutated
    after construction. *)
Record t := mk { id : nat; attributes : list (string * Val) }.

Definition same (a b : t) : bool := Nat.eqb (id a) (id b).

(** [this.attributes.get(name)] *)
Definition attr (c : t) (name : string) : Val :=
  default VUndef (sget (attributes c) name).

(** The loop of [change]: [None] while [newAttrs] is still [null]. *)
Definition changedAttrs (attrs : list (string * Val)) (modifications : list (string * Val))
  : option (list (string * Val)) :=
  fold_left
    (fun (newAttrs : option (list (string * Val))) (kv : string * Val) =>
       let existingValue := default VUndef (sget attrs kv.1) in
       if negb (strict_eq kv.2 existingValue)
       then Some (sset (default attrs newAttrs) kv.1 kv.2)
       else newAttrs)
    modifications None.

(** [change] allocates: [fresh] is the next unused object identity. *)
Definition change (self : t) (modifications : Val) (fresh : nat) : t * nat :=
  match changedAttrs (attributes self) (ownProps modifications) with
  | Some newAttrs => (mk fresh newAttrs, S fresh)
  | None => (self, fresh)
  end.

Definition sameValue : SameValue := sameValueZero.

End Context.

(** Modelled from the spec: the module [EmptyContext] imported by
    [Component.ts] is not among the sources; it is taken to export one
    context object without attributes, of identity [0]. *)
Definition emptyContext : Context.t := Context.mk 0 [].

(** The cache object [{base, modifications, result}] of
    [applyModificationsCached], initially [{}]. *)
Record ModCache := mkModCache {
  mc_base : option Context.t;
  mc_modifications : Val;
  mc_result : option Context.t
}.

Definition emptyModCache : ModCache := mkModCache None VUndef None.

Definition applyModificationsCached (sameValue : SameValue) (base : Context.t)
           (modifications : Val) (cache : ModCache) (fresh : nat)
  : Context.t * ModCache * nat :=
  if negb (truthy modifications) then (base, cache, fresh)
  else
    match mc_base cache, mc_result cache with
    | Some b, Some r =>
        if Context.same b base && sameShallow sameValue (mc_modifications cache) modifications
        then (r, cache, fresh)
        else let '(result, fresh') := Context.change base modifications fresh in
             (result, mkModCache (Some base) modifications (Some result), fresh')
    | _, _ =>
        let '(result, fresh') := Context.change base modifications fresh in
        (result, mkModCache (Some base) modifications (Some result), fresh')
    end.

(** ** Component.ts: data *)

Definition ID := nat.

Definition Phase_CREATING : Z := 0.
Definition Phase_MOUNTING : Z := 1.
Definition Phase_PREPARING : Z := 2.
Definition Phase_RENDERING : Z := 3.
Definition Phase_RENDERED : Z := 4.
Definition Phase_UNMOUNTING : Z := 5.
Definition Phase_RESTORING : Z := 6.

Definition BITS_PHASE : Z := 3.
Definition MASK_PHASE : Z := 7.
Definition FLAGS_OFFSET : Z := BITS_PHASE.
Definition FLAG_MOUNTED : Z := Z.shiftl 1 FLAGS_OFFSET.
Definition FLAG_PREPARED : Z := Z.shiftl 1 (FLAGS_OFFSET + 1).
Definition FLAG_KEPT_MOUNTED : Z := Z.shiftl 1 (FLAGS_OFFSET + 2).
Definition FLAG_AVOID_RENDER_AFTER_RENDER : Z := Z.shiftl 1 (FLAGS_OFFSET + 3).
Definition FLAG_NEEDS_RENDER_AFTER_RENDER : Z := Z.shiftl 1 (FLAGS_OFFSET + 4).
Definition FLAG_NEEDS_PREPARE_AFTER_PREPARE : Z := Z.shiftl 1 (FLAGS_OFFSET + 5).
Definition FLAG_ERROR_DURING_INITIALIZE : Z := Z.shiftl 1 (FLAGS_OFFSET + 6).
Definition FLAG_RENDER_ROOT_WAS_INTERRUPTED : Z := Z.shiftl 1 (FLAGS_OFFSET + 7).

Definition setPhaseFlags (flags phase : Z) : Z :=
  Z.lor (Z.land flags (Z.lnot MASK_PHASE)) phase.

(** [flags & MASK_PHASE] *)
Definition phaseOf (flags : Z) : Z := Z.land flags MASK_PHASE.

(** [!!(flags & FLAG)] *)
Definition hasFlag (flags flag : Z) : bool := negb (Z.land flags flag =? 0)%Z.

(** [flags | FLAG] and [flags & ~FLAG] *)
Definition addFlag (flags flag : Z) : Z := Z.lor flags flag.
Definition clearFlag (flags flag : Z) : Z := Z.land flags (Z.lnot flag).

(** A render cache entry, and the information a parent keeps per child
    ([ChildInfo] has the same shape).  [ce_uid] is the identity of the entry
    object, compared by [cacheEntry === data._currentlyUsedCache]. *)
Inductive CacheEntry : Type := mkCacheEntry {
  ce_uid : nat;
  ce_result : Val;
  ce_instance : ID;
  ce_children : option (list (ID * CacheEntry));
  ce_context : option Context.t;
  ce_usedContextAttributes : list Z;
  ce_descendantCount : Z
}.

Definition Children := list (ID * CacheEntry).

(** The three strategies behind [CacheInterface]. *)
Inductive RenderCache :=
| ScanCache (c : Cache.t CacheEntry)
| HashedCache (c : HashCache.t CacheEntry)
| SingleCache (c : SingleEntryCache.t CacheEntry).

Definition rc_getEntry (rc : RenderCache) (key : Val) : option CacheEntry :=
  match rc with
  | ScanCache c => Cache.getEntry c key
  | HashedCache c => HashCache.getEntry c key
  | SingleCache c => SingleEntryCache.getEntry c key
  end.

Definition rc_setEntry (rc : RenderCache) (key : Val) (value : CacheEntry) : RenderCache :=
  match rc with
  | ScanCache c => ScanCache (Cache.setEntry c key value)
  | HashedCache c => HashedCache (HashCache.setEntry c key value)
  | SingleCache c => SingleCache (SingleEntryCache.setEntry c key value)
  end.

Definition rc_empty (rc : RenderCache) : RenderCache :=
  match rc with
  | ScanCache c => ScanCache (Cache.empty c)
  | HashedCache c => HashedCache (HashCache.empty c)
  | SingleCache c => SingleCache (SingleEntryCache.empty c)
  end.

(** A state waiter [{value, resolve}]; the resolver is named by a number. *)
Definition Waiter := (Val * nat)%type.

Record RootData := mkRootData {
  onRequestRender : bool;
  interruptGeneration : Z;
  componentCount : Z;
  needsRenderTimeout : bool
}.

Definition rd_set_onRequestRender (v : bool) (r : RootData) : RootData :=
  mkRootData v (interruptGeneration r) (componentCount r) (needsRenderTimeout r).

Definition rd_set_interruptGeneration (v : Z) (r : RootData) : RootData :=
  mkRootData (onRequestRender r) v (componentCount r) (needsRenderTimeout r).

Definition rd_set_componentCount (v : Z) (r : RootData) : RootData :=
  mkRootData (onRequestRender r) (interruptGeneration r) v (needsRenderTimeout r).

Definition rd_set_needsRenderTimeout (v : bool) (r : RootData) : RootData :=
  mkRootData (onRequestRender r) (interruptGeneration r) (componentCount r) v.

Record UncommonData := mkUncommonData {
  rootData : option RootData;
  stateWaiters : list (string * list (option Waiter));
  renderError : Val
}.

Definition ud_set_rootData (v : option RootData) (r : UncommonData) : UncommonData :=
  mkUncommonData v (stateWaiters r) (renderError r).

Definition ud_set_stateWaiters (v : list (string * list (option Waiter))) (r : UncommonData) : UncommonData :=
  mkUncommonData (rootData r) v (renderError r).

Definition ud_set_renderError (v : Val) (r : UncommonData) : UncommonData :=
  mkUncommonData (rootData r) (stateWaiters r) v.

Record ChildrenData := mkChildrenData {
  prepareChildren : Children;
  renderedChildren : Children;
  modifiedPrepareContextCache : ModCache;
  modifiedContextCache : ModCache
}.

Definition cd_set_prepareChildren (v : Children) (r : ChildrenData) : ChildrenData :=
  mkChildrenData v (renderedChildren r) (modifiedPrepareContextCache r) (modifiedContextCache r).

Definition cd_set_renderedChildren (v : Children) (r : ChildrenData) : ChildrenData :=
  mkChildrenData (prepareChildren r) v (modifiedPrepareContextCache r) (modifiedContextCache r).

Definition cd_set_modifiedPrepareContextCache (v : ModCache) (r : ChildrenData) : ChildrenData :=
  mkChildrenData (prepareChildren r) (renderedChildren r) v (modifiedContextCache r).

Definition cd_set_modifiedContextCache (v : ModCache) (r : ChildrenData) : ChildrenData :=
  mkChildrenData (prepareChildren r) (renderedChildren r) (modifiedPrepareContextCache r) v.

Record InternalData := mkInternalData {
  flags : Z;
  _id : ID;
  state : list (string * Val);
  _changedAttributesSincePrepare : option (list string);
  _context : option Context.t;
  _boundContext : option nat;
  _currentlyUsedCache : option nat;
  _prepare : option nat;
  _prepareResult : Val;
  _renderCache : RenderCache;
  _renderParent : option ID;
  _renderResult : Val;
  _usedContextAttributes : list Z;
  childrenData : option ChildrenData;
  _pendingRender : bool;
  _pendingCompleteRender : bool;
  uncommonData : option UncommonData
}.

Definition set_flags (v : Z) (r : InternalData) : InternalData :=
  mkInternalData v (_id r) (state r) (_changedAttributesSincePrepare r) (_context r) (_boundContext r) (_currentlyUsedCache r) (_prepare r) (_prepareResult r) (_renderCache r) (_renderParent r) (_renderResult r) (_usedContextAttributes r) (childrenData r) (_pendingRender r) (_pendingCompleteRender r) (uncommonData r).

Definition set_id (v : ID) (r : InternalData) : InternalData :=
  mkInternalData (flags r) v (state r) (_changedAttributesSincePrepare r) (_context r) (_boundContext r) (_currentlyUsedCache r) (_prepare r) (_prepareResult r) (_renderCache r) (_renderParent r) (_renderResult r) (_usedContextAttributes r) (childrenData r) (_pendingRender r) (_pendingCompleteRender r) (uncommonData r).

Definition set_state (v : list (string * Val)) (r : InternalData) : InternalData :=
  mkInternalData (flags r) (_id r) v (_changedAttributesSincePrepare r) (_context r) (_boundContext r) (_currentlyUsedCache r) (_prepare r) (_prepareResult r) (_renderCache r) (_renderParent r) (_renderResult r) (_usedContextAttributes r) (childrenData r) (_pendingRender r) (_pendingCompleteRender r) (uncommonData r).

Definition set_changedAttributesSincePrepare (v : option (list string)) (r : InternalData) : InternalData :=
  mkInternalData (flags r) (_id r) (state r) v (_context r) (_boundContext r) (_currentlyUsedCache r) (_prepare r) (_prepareResult r) (_renderCache r) (_renderParent r) (_renderResult r) (_usedContextAttributes r) (childrenData r) (_pendingRender r) (_pendingCompleteRender r) (uncommonData r).

Definition set_context (v : option Context.t) (r : InternalData) : InternalData :=
  mkInternalData (flags r) (_id r) (state r) (_changedAttributesSincePrepare r) v (_boundContext r) (_currentlyUsedCache r) (_prepare r) (_prepareResult r) (_renderCache r) (_renderParent r) (_renderResult r) (_usedContextAttributes r) (childrenData r) (_pendingRender r) (_pendingCompleteRender r) (uncommonData r).

Definition set_boundContext (v : option nat) (r : InternalData) : InternalData :=
  mkInternalData (flags r) (_id r) (state r) (_changedAttributesSincePrepare r) (_context r) v (_currentlyUsedCache r) (_prepare r) (_prepareResult r) (_renderCache r) (_renderParent r) (_renderResult r) (_usedContextAttributes r) (childrenData r) (_pendingRender r) (_pendingCompleteRender r) (uncommonData r).

Definition set_currentlyUsedCache (v : option nat) (r : InternalData) : InternalData :=
  mkInternalData (flags r) (_id r) (state r) (_changedAttributesSincePrepare r) (_context r) (_boundContext r) v (_prepare r) (_prepareResult r) (_renderCache r) (_renderParent r) (_renderResult r) (_usedContextAttributes r) (childrenData r) (_pendingRender r) (_pendingCompleteRender r) (uncommonData r).

Definition set_prepare (v : option nat) (r : InternalData) : InternalData :=
  mkInternalData (flags r) (_id r) (state r) (_changedAttributesSincePrepare r) (_context r) (_boundContext r) (_currentlyUsedCache r) v (_prepareResult r) (_renderCache r) (_renderParent r) (_renderResult r) (_usedContextAttributes r) (childrenData r) (_pendingRender r) (_pendingCompleteRender r) (uncommonData r).

Definition set_prepareResult (v : Val) (r : InternalData) : InternalData :=
  mkInternalData (flags r) (_id r) (state r) (_changedAttributesSincePrepare r) (_context r) (_boundContext r) (_currentlyUsedCache r) (_prepare r) v (_renderCache r) (_renderParent r) (_renderResult r) (_usedContextAttributes r) (childrenData r) (_pendingRender r) (_pendingCompleteRender r) (uncommonData r).

Definition set_renderCache (v : RenderCache) (r : InternalData) : InternalData :=
  mkInternalData (flags r) (_id r) (state r) (_changedAttributesSincePrepare r) (_context r) (_boundContext r) (_currentlyUsedCache r) (_prepare r) (_prepareResult r) v (_renderParent r) (_renderResult r) (_usedContextAttributes r) (childrenData r) (_pendingRender r) (_pendingCompleteRender r) (uncommonData r).

Definition set_renderParent (v : option ID) (r : InternalData) : InternalData :=
  mkInternalData (flags r) (_id r) (state r) (_changedAttributesSincePrepare r) (_context r) (_boundContext r) (_currentlyUsedCache r) (_prepare r) (_prepareResult r) (_renderCache r) v (_renderResult r) (_usedContextAttributes r) (childrenData r) (_pendingRender r) (_pendingCompleteRender r) (uncommonData r).

Definition set_renderResult (v : Val) (r : InternalData) : InternalData :=
  mkInternalData (flags r) (_id r) (state r) (_changedAttributesSincePrepare r) (_context r) (_boundContext r) (_currentlyUsedCache r) (_prepare r) (_prepareResult r) (_renderCache r) (_renderParent r) v (_usedContextAttributes r) (childrenData r) (_pendingRender r) (_pendingCompleteRender r) (uncommonData r).

Definition set_usedContextAttributes (v : list Z) (r : InternalData) : InternalData :=
  mkInternalData (flags r) (_id r) (state r) (_changedAttributesSincePrepare r) (_context r) (_boundContext r) (_currentlyUsedCache r) (_prepare r) (_prepareResult r) (_renderCache r) (_renderParent r) (_renderResult r) v (childrenData r) (_pendingRender r) (_pendingCompleteRender r) (uncommonData r).

Definition set_childrenData (v : option ChildrenData) (r : InternalData) : InternalData :=
  mkInternalData (flags r) (_id r) (state r) (_changedAttributesSincePrepare r) (_context r) (_boundContext r) (_currentlyUsedCache r) (_prepare r) (_prepareResult r) (_renderCache r) (_renderParent r) (_renderResult r) (_usedContextAttributes r) v (_pendingRender r) (_pendingCompleteRender r) (uncommonData r).

Definition set_pendingRender (v : bool) (r : InternalData) : InternalData :=
  mkInternalData (flags r) (_id r) (state r) (_changedAttributesSincePrepare r) (_context r) (_boundContext r) (_currentlyUsedCache r) (_prepare r) (_prepareResult r) (_renderCache r) (_renderParent r) (_renderResult r) (_usedContextAttributes r) (childrenData r) v (_pendingCompleteRender r) (uncommonData r).

Definition set_pendingCompleteRender (v : bool) (r : InternalData) : InternalData :=
  mkInternalData (flags r) (_id r) (state r) (_changedAttributesSincePrepare r) (_context r) (_boundContext r) (_currentlyUsedCache r) (_prepare r) (_prepareResult r) (_renderCache r) (_renderParent r) (_renderResult r) (_usedContextAttributes r) (childrenData r) (_pendingRender r) v (uncommonData r).

Definition set_uncommonData (v : option UncommonData) (r : InternalData) : InternalData :=
  mkInternalData (flags r) (_id r) (state r) (_changedAttributesSincePrepare r) (_context r) (_boundContext r) (_currentlyUsedCache r) (_prepare r) (_prepareResult r) (_renderCache r) (_renderParent r) (_renderResult r) (_usedContextAttributes r) (childrenData r) (_pendingRender r) (_pendingCompleteRender r) v.

Record RenderState := mkRenderState {
  isRendering : bool;
  isRenderInterrupted : bool;
  lastRenderWasInterrupted : bool;
  lastRenderComponentCount : Z;
  renderStartTime : Z;
  renderInterruptGeneration : Z;
  renderComponentCount : Z
}.

Definition rs_set_isRendering (v : bool) (r : RenderState) : RenderState :=
  mkRenderState v (isRenderInterrupted r) (lastRenderWasInterrupted r) (lastRenderComponentCount r) (renderStartTime r) (renderInterruptGeneration r) (renderComponentCount r).

Definition rs_set_isRenderInterrupted (v : bool) (r : RenderState) : RenderState :=
  mkRenderState (isRendering r) v (lastRenderWasInterrupted r) (lastRenderComponentCount r) (renderStartTime r) (renderInterruptGeneration r) (renderComponentCount r).

Definition rs_set_lastRenderWasInterrupted (v : bool) (r : RenderState) : RenderState :=
  mkRenderState (isRendering r) (isRenderInterrupted r) v (lastRenderComponentCount r) (renderStartTime r) (renderInterruptGeneration r) (renderComponentCount r).

Definition rs_set_lastRenderComponentCount (v : Z) (r : RenderState) : RenderState :=
  mkRenderState (isRendering r) (isRenderInterrupted r) (lastRenderWasInterrupted r) v (renderStartTime r) (renderInterruptGeneration r) (renderComponentCount r).

Definition rs_set_renderStartTime (v : Z) (r : RenderState) : RenderState :=
  mkRenderState (isRendering r) (isRenderInterrupted r) (lastRenderWasInterrupted r) (lastRenderComponentCount r) v (renderInterruptGeneration r) (renderComponentCount r).

Definition rs_set_renderInterruptGeneration (v : Z) (r : RenderState) : RenderState :=
  mkRenderState (isRendering r) (isRenderInterrupted r) (lastRenderWasInterrupted r) (lastRenderComponentCount r) (renderStartTime r) v (renderComponentCount r).

Definition rs_set_renderComponentCount (v : Z) (r : RenderState) : RenderState :=
  mkRenderState (isRendering r) (isRenderInterrupted r) (lastRenderWasInterrupted r) (lastRenderComponentCount r) (renderStartTime r) (renderInterruptGeneration r) v.

(** [{root, rootData, interrupted}]; components stand for their data. *)
Record InterruptedItem := mkInterruptedItem {
  ii_root : ID;
  ii_interrupted : list ID
}.

Inductive PromiseState :=
| PPending
| PFulfilled (value : Val)
| PRejected (error : Val).

(** One entry per hook invocation, in call order. *)
Inductive Event :=
| EvAppear (c : ID)
| EvMount (c : ID)
| EvUnmount (c : ID)
| EvDisappear (c : ID)
| EvReceiveContext (c : ID) (prevContext : option Context.t)
| EvDoPrepare (c : ID)
| EvDoRender (c : ID) (arg prepareResult : Val)
| EvDoRenderPending (c : ID) (arg : Val)
| EvDoRenderError (c : ID) (arg error : Val)
| EvCachedRender (c : ID) (renderResult : Val)
| EvChange (c : ID) (name : string) (value oldValue : Val)
| EvWaiterResolved (c : ID) (resolver : nat)
| EvRequestRender (root : ID).

Record World := mkWorld {
  heap : gmap ID InternalData;
  renderStack : list ID;
  renderState : RenderState;
  interruptedComponents : list (ID * InterruptedItem);
  rerenderInterruptedTimeout : bool;
  unmountedComponents : list ID;
  disappearHandlersTimeout : bool;
  contextNamesByKey : list string;
  promises : gmap nat PromiseState;
  nextObject : nat;
  ticks : nat;
  trace : list Event
}.

Definition w_set_heap (v : gmap ID InternalData) (r : World) : World :=
  mkWorld v (renderStack r) (renderState r) (interruptedComponents r) (rerenderInterruptedTimeout r) (unmountedComponents r) (disappearHandlersTimeout r) (contextNamesByKey r) (promises r) (nextObject r) (ticks r) (trace r).

Definition w_set_renderStack (v : list ID) (r : World) : World :=
  mkWorld (heap r) v (renderState r) (interruptedComponents r) (rerenderInterruptedTimeout r) (unmountedComponents r) (disappearHandlersTimeout r) (contextNamesByKey r) (promises r) (nextObject r) (ticks r) (trace r).

Definition w_set_renderState (v : RenderState) (r : World) : World :=
  mkWorld (heap r) (renderStack r) v (interruptedComponents r) (rerenderInterruptedTimeout r) (unmountedComponents r) (disappearHandlersTimeout r) (contextNamesByKey r) (promises r) (nextObject r) (ticks r) (trace r).

Definition w_set_interruptedComponents (v : list (ID * InterruptedItem)) (r : World) : World :=
  mkWorld (heap r) (renderStack r) (renderState r) v (rerenderInterruptedTimeout r) (unmountedComponents r) (disappearHandlersTimeout r) (contextNamesByKey r) (promises r) (nextObject r) (ticks r) (trace r).

Definition w_set_rerenderInterruptedTimeout (v : bool) (r : World) : World :=
  mkWorld (heap r) (renderStack r) (renderState r) (interruptedComponents r) v (unmountedComponents r) (disappearHandlersTimeout r) (contextNamesByKey r) (promises r) (nextObject r) (ticks r) (trace r).

Definition w_set_unmountedComponents (v : list ID) (r : World) : World :=
  mkWorld (heap r) (renderStack r) (renderState r) (interruptedComponents r) (rerenderInterruptedTimeout r) v (disappearHandlersTimeout r) (contextNamesByKey r) (promises r) (nextObject r) (ticks r) (trace r).

Definition w_set_disappearHandlersTimeout (v : bool) (r : World) : World :=
  mkWorld (heap r) (renderStack r) (renderState r) (interruptedComponents r) (rerenderInterruptedTimeout r) (unmountedComponents r) v (contextNamesByKey r) (promises r) (nextObject r) (ticks r) (trace r).

Definition w_set_contextNamesByKey (v : list string) (r : World) : World :=
  mkWorld (heap r) (renderStack r) (renderState r) (interruptedComponents r) (rerenderInterruptedTimeout r) (unmountedComponents r) (disappearHandlersTimeout r) v (promises r) (nextObject r) (ticks r) (trace r).

Definition w_set_promises (v : gmap nat PromiseState) (r : World) : World :=
  mkWorld (heap r) (renderStack r) (renderState r) (interruptedComponents r) (rerenderInterruptedTimeout r) (unmountedComponents r) (disappearHandlersTimeout r) (contextNamesByKey r) v (nextObject r) (ticks r) (trace r).

Definition w_set_nextObject (v : nat) (r : World) : World :=
  mkWorld (heap r) (renderStack r) (renderState r) (interruptedComponents r) (rerenderInterruptedTimeout r) (unmountedComponents r) (disappearHandlersTimeout r) (contextNamesByKey r) (promises r) v (ticks r) (trace r).

Definition w_set_ticks (v : nat) (r : World) : World :=
  mkWorld (heap r) (renderStack r) (renderState r) (interruptedComponents r) (rerenderInterruptedTimeout r) (unmountedComponents r) (disappearHandlersTimeout r) (contextNamesByKey r) (promises r) (nextObject r) v (trace r).

Definition w_set_trace (v : list Event) (r : World) : World :=
  mkWorld (heap r) (renderStack r) (renderState r) (interruptedComponents r) (rerenderInterruptedTimeout r) (unmountedComponents r) (disappearHandlersTimeout r) (contextNamesByKey r) (promises r) (nextObject r) (ticks r) v.


(** ** Component classes: the overridable hooks *)

Record RenderOptions := mkRenderOptions {
  opt_context : option Context.t;
  opt_isRequired : bool;
  opt_isOptional : bool
}.

Definition noOptions : RenderOptions := mkRenderOptions None false false.

(** The body of a render hook ([doPrepare], [doRender], [doRenderPending],
    [doRenderError]): application code that returns or throws, and in between
    calls back into the engine through the public methods of [Component]. *)
Inductive Prog : Type :=
| PRet (v : Val)
| PThrow (e : Val)
| PRender (child : ID) (arg : Val) (options : RenderOptions) (k : Val -> Prog)
| PRenderRoot (root : ID) (arg : Val) (options : RenderOptions) (k : Val -> Prog)
| PContextGet (name : string) (k : Val -> Prog)
| PGetState (name : string) (k : Val -> Prog)
| PSetState (target : ID) (values : list (string * Val)) (k : Prog)
| PForceRender (target : ID) (k : Prog).

(** What a subclass of [Component] defines.  Policy predicates and context
    modifications read [this.state]; the lifecycle hooks ([onAppear],
    [onMount], [onUnmount], [onDisappear], [onReceiveContext],
    [onCachedRender], the [onChange] listeners) belong to the application
    and are observed through the trace only. *)
Record Class := mkClass {
  defaults : list (string * Val);
  initializeError : option Val;
  doPrepare : Prog;
  doRender : Val -> Val -> Prog;
  doRenderPending : Val -> Prog;
  doRenderError : Val -> Val -> Prog;
  shouldPrepare : list (string * Val) -> list string -> bool;
  shouldRender : list (string * Val) -> Val -> Val -> bool;
  shouldWaitForChildren : list (string * Val) -> bool;
  shouldInterruptRender : list (string * Val) -> Z -> Z -> Z -> bool;
  getPrepareContextModifications : list (string * Val) -> Val;
  getContextModifications : list (string * Val) -> Val -> Val;
  getMaxRenderCacheSize : Z;
  canHashRenderArg : bool;
  getRenderArgHash : Val -> string;
  hasChangeListener : string -> bool
}.

(** The base class: every hook as [Component] itself defines it. *)
Definition Component : Class := {|
  defaults := [];
  initializeError := None;
  doPrepare := PRet VNull;
  doRender := fun _ _ => PRet VUndef;
  doRenderPending := fun _ => PRet VUndef;
  doRenderError := fun _ error => PThrow error;
  shouldPrepare := fun _ changedAttributes => negb (Nat.eqb (length changedAttributes) 0);
  shouldRender := fun _ _ _ => false;
  shouldWaitForChildren := fun _ => false;
  shouldInterruptRender := fun _ _ _ _ => false;
  getPrepareContextModifications := fun _ => VNull;
  getContextModifications := fun _ _ => VNull;
  getMaxRenderCacheSize := 1;
  canHashRenderArg := false;
  getRenderArgHash := fun _ => EmptyString;
  hasChangeListener := fun _ => false
|}.

(** ** The engine monad: state, exceptions, and running out of fuel *)

Inductive Outcome (A : Type) : Type :=
| Ok (a : A)
| Thrown (e : Val).
Arguments Ok {A} a.
Arguments Thrown {A} e.

(** [None]: no result (fuel exhausted, or a component that does not exist). *)
Definition M (A : Type) : Type := World -> option (Outcome A * World).

Definition ret {A} (a : A) : M A := fun w => Some (Ok a, w).
Definition throw {A} (e : Val) : M A := fun w => Some (Thrown e, w).
Definition stuck {A} : M A := fun _ => None.

Definition bind {A B} (m : M A) (k : A -> M B) : M B :=
  fun w => match m w with
           | Some (Ok a, w') => k a w'
           | Some (Thrown e, w') => Some (Thrown e, w')
           | None => None
           end.

(** [try { m } catch (e) { ... }]: the outcome becomes a value. *)
Definition tryCatch {A} (m : M A) : M (Outcome A) :=
  fun w => match m w with
           | Some (r, w') => Some (Ok r, w')
           | None => None
           end.

Definition gets {A} (f : World -> A) : M A := fun w => Some (Ok (f w), w).
Definition modify (f : World -> World) : M unit := fun w => Some (Ok tt, f w).

Declare Scope engine_scope.
Delimit Scope engine_scope with engine.
Notation "x <- m ;; k" := (bind m (fun x => k))
  (at level 100, m at next level, right associativity) : engine_scope.
Notation "m ;; k" := (bind m (fun _ => k))
  (at level 100, right associativity) : engine_scope.
Open Scope engine_scope.

Fixpoint forEach {A} (l : list A) (f : A -> M unit) : M unit :=
  match l with
  | [] => ret tt
  | x :: r => f x ;; forEach r f
  end.

Definition when (b : bool) (m : M unit) : M unit := if b then m else ret tt.

Definition getData (c : ID) : M InternalData :=
  fun w => match heap w !! c with
           | Some d => Some (Ok d, w)
           | None => None
           end.

Definition modData (c : ID) (f : InternalData -> InternalData) : M unit :=
  fun w => match heap w !! c with
           | Some d => Some (Ok tt, w_set_heap (<[c := f d]> (heap w)) w)
           | None => None
           end.

Definition logEv (e : Event) : M unit :=
  modify (fun w => w_set_trace (trace w ++ [e]) w).

(** A fresh object identity. *)
Definition alloc : M nat :=
  fun w => Some (Ok (nextObject w), w_set_nextObject (S (nextObject w)) w).

Definition modRenderState (f : RenderState -> RenderState) : M unit :=
  modify (fun w => w_set_renderState (f (renderState w)) w).

Definition ID_eqb (a b : option ID) : bool :=
  match a, b with
  | Some x, Some y => Nat.eqb x y
  | None, None => true
  | _, _ => false
  end.

(** ** Component.ts: the engine *)

Definition getCurrentRenderRoot (w : World) : option ID := head (renderStack w).
Definition getCurrentRenderParent (w : World) : option ID := last (renderStack w).

Definition pushToRenderStack (component : ID) : M unit :=
  modify (fun w => w_set_renderStack (renderStack w ++ [component]) w).

Definition popFromRenderStack : M unit :=
  modify (fun w => w_set_renderStack (removelast (renderStack w)) w).

(** The snapshot [resetState] returns: the seven fields of [renderState]
    and a copy of the render stack. *)
Definition RenderStateSnapshot := (RenderState * list ID)%type.

Definition resetState : M RenderStateSnapshot :=
  fun w =>
    let oldState := (renderState w, renderStack w) in
    let rs := renderState w in
    let rs' := mkRenderState false false false 0 (renderStartTime rs)
                             (renderInterruptGeneration rs) 0 in
    Some (Ok oldState, w_set_renderStack [] (w_set_renderState rs' w)).

Definition restoreState (oldState : RenderStateSnapshot) : M unit :=
  modify (fun w => w_set_renderStack oldState.2 (w_set_renderState oldState.1 w)).

Definition didContextChange (names : list string) (newContext prevContext : option Context.t)
           (usedAttributes : list Z) : bool :=
  match newContext with
  | None => false
  | Some context =>
      if match prevContext with Some prev => Context.same context prev | None => false end
      then false
      else anyUsedAttribute names usedAttributes
             (fun name =>
                match prevContext with
                | None => true
                | Some prev =>
                    negb (Context.sameValue (Context.attr prev name) (Context.attr context name)
                                            (Some name))
                end)
  end.

Definition emptyUncommonData : UncommonData := mkUncommonData None [] VNull.
Definition emptyRootData : RootData := mkRootData false 0 0 false.
Definition emptyChildrenData : ChildrenData :=
  mkChildrenData [] [] emptyModCache emptyModCache.

(** [getUncommonData], [getRootData], [getChildrenData] create the record
    on first use; [ensure...] is that side effect, [the...] the record read. *)
Definition ensureUncommonData (d : InternalData) : InternalData :=
  match uncommonData d with
  | Some _ => d
  | None => set_uncommonData (Some emptyUncommonData) d
  end.

Definition theUncommonData (d : InternalData) : UncommonData :=
  default emptyUncommonData (uncommonData d).

Definition ensureRootData (d : InternalData) : InternalData :=
  let d := ensureUncommonData d in
  match rootData (theUncommonData d) with
  | Some _ => d
  | None => set_uncommonData (Some (ud_set_rootData (Some emptyRootData) (theUncommonData d))) d
  end.

Definition theRootData (d : InternalData) : RootData :=
  default emptyRootData (rootData (theUncommonData d)).

Definition modRootData (f : RootData -> RootData) (d : InternalData) : InternalData :=
  let d := ensureRootData d in
  set_uncommonData (Some (ud_set_rootData (Some (f (theRootData d))) (theUncommonData d))) d.

Definition ensureChildrenData (d : InternalData) : InternalData :=
  match childrenData d with
  | Some _ => d
  | None => set_childrenData (Some emptyChildrenData) d
  end.

Definition theChildrenData (d : InternalData) : ChildrenData :=
  default emptyChildrenData (childrenData d).

Definition modChildrenData (f : ChildrenData -> ChildrenData) (d : InternalData) : InternalData :=
  set_childrenData (Some (f (theChildrenData d))) d.

(** [childrenData ? childrenData.renderedChildren : null] *)
Definition renderedChildrenOf (d : InternalData) : option Children :=
  renderedChildren <$> childrenData d.

Definition isPrepareChild (parentData : InternalData) (id : ID) : bool :=
  match childrenData parentData with
  | Some cd => nhas (prepareChildren cd) id
  | None => false
  end.

Definition setPhase (phase : Z) (d : InternalData) : InternalData :=
  set_flags (setPhaseFlags (flags d) phase) d.

Definition _invalidatePrepareCache (d : InternalData) : InternalData :=
  let d := set_prepare None d in
  let d := set_flags (clearFlag (flags d) FLAG_PREPARED) d in
  let d := set_prepareResult VNull d in
  match childrenData d with
  | Some cd => set_childrenData (Some (cd_set_prepareChildren [] cd)) d
  | None => d
  end.

Definition _invalidateRenderCache (d : InternalData) : InternalData :=
  let d := set_renderCache (rc_empty (_renderCache d)) d in
  let d := set_currentlyUsedCache None d in
  if negb (hasFlag (flags d) FLAG_ERROR_DURING_INITIALIZE) then
    match uncommonData d with
    | Some u => set_uncommonData (Some (ud_set_renderError VNull u)) d
    | None => d
    end
  else d.

Definition _resetPendingRender (d : InternalData) : InternalData :=
  set_pendingCompleteRender true (set_pendingRender true d).

(** [_forceRender], [_requestRender] and [_forcePrepare] climb the chain of
    render parents; [fuel] bounds the climb. A root that needs rendering gets
    its batched request scheduled ([needsRenderTimeout]). *)
Fixpoint _forceRender (fuel : nat) (that : ID) (notDuringRender : bool) {struct fuel} : M unit :=
  match fuel with
  | O => stuck
  | S n =>
      modData that _invalidateRenderCache ;;
      data <- getData that ;;
      let phase := phaseOf (flags data) in
      if (phase =? Phase_RENDERING)%Z
         && negb (hasFlag (flags data) FLAG_AVOID_RENDER_AFTER_RENDER)
         && negb notDuringRender
      then modData that (fun d => set_flags (addFlag (flags d) FLAG_NEEDS_RENDER_AFTER_RENDER) d)
      else if negb (phase =? Phase_RENDERED)%Z && negb (phase =? Phase_RESTORING)%Z
      then ret tt
      else modData that _resetPendingRender ;; _requestRender n that
  end
with _requestRender (fuel : nat) (that : ID) {struct fuel} : M unit :=
  match fuel with
  | O => stuck
  | S n =>
      data <- getData that ;;
      match _renderParent data with
      | Some parent =>
          parentData <- getData parent ;;
          if isPrepareChild parentData (_id data)
          then _forcePrepare n parent
          else _forceRender n parent false
      | None =>
          modData that ensureRootData ;;
          data <- getData that ;;
          when (negb (needsRenderTimeout (theRootData data)))
               (modData that (modRootData (rd_set_needsRenderTimeout true)))
      end
  end
with _forcePrepare (fuel : nat) (that : ID) {struct fuel} : M unit :=
  match fuel with
  | O => stuck
  | S n =>
      data <- getData that ;;
      let phase := phaseOf (flags data) in
      if (phase =? Phase_PREPARING)%Z
      then modData that (fun d => set_flags (addFlag (flags d) FLAG_NEEDS_PREPARE_AFTER_PREPARE) d)
      else if negb (phase =? Phase_RENDERED)%Z && negb (phase =? Phase_RESTORING)%Z
              && negb (phase =? Phase_RENDERING)%Z
      then ret tt
      else modData that _invalidatePrepareCache ;; _forceRender n that false
  end.

(** The callback scheduled by [_requestRender] for a root. *)
Definition needsRenderTick (root : ID) : M unit :=
  modData root (modRootData (rd_set_needsRenderTimeout false)) ;;
  data <- getData root ;;
  when (onRequestRender (theRootData data)) (logEv (EvRequestRender root)).

Definition scheduleDisappearHandlers : M unit :=
  modify (fun w => if disappearHandlersTimeout w then w
                   else w_set_disappearHandlersTimeout true w).

(** The callback [scheduleDisappearHandlers] schedules: one tick later,
    [onDisappear] for every recorded component that is still not mounted. *)
Definition disappearTick : M unit :=
  modify (w_set_disappearHandlersTimeout false) ;;
  unmounted <- gets unmountedComponents ;;
  forEach unmounted
    (fun component =>
       data <- getData component ;;
       when (negb (hasFlag (flags data) FLAG_MOUNTED)) (logEv (EvDisappear component))) ;;
  modify (w_set_unmountedComponents []).

Definition scheduleRerenderInterrupted : M unit :=
  modify (fun w => if rerenderInterruptedTimeout w then w
                   else w_set_rerenderInterruptedTimeout true w).

Fixpoint _unmountFromParent (fuel : nat) (that : ID) (parent : option ID) {struct fuel} : M unit :=
  match fuel with
  | O => stuck
  | S n =>
      data <- getData that ;;
      let isMountedIntoAnotherParent := negb (ID_eqb (_renderParent data) parent) in
      if negb isMountedIntoAnotherParent then
        match childrenData data with
        | Some cd =>
            forEach (renderedChildren cd)
                    (fun kv => _unmountFromParent n (ce_instance kv.2) (Some that))
        | None => ret tt
        end ;;
        modData that (setPhase Phase_UNMOUNTING) ;;
        modData that _invalidatePrepareCache ;;
        modData that _invalidateRenderCache ;;
        data <- getData that ;;
        let silent := hasFlag (flags data) FLAG_ERROR_DURING_INITIALIZE in
        when (negb silent) (logEv (EvUnmount that)) ;;
        modData that (fun d => set_renderParent None
                                 (set_flags (clearFlag (flags d) FLAG_MOUNTED) d)) ;;
        when (negb silent)
             (modify (fun w => w_set_unmountedComponents (unmountedComponents w ++ [that]) w) ;;
              scheduleDisappearHandlers)
      else ret tt
  end.

Definition _unmountPreviousChildren (fuel : nat) (prevChildren : Children)
           (nextChildren : option Children) (that : ID) : M unit :=
  forEach prevChildren
    (fun kv =>
       when (match nextChildren with
             | Some next => negb (nhas next kv.1)
             | None => true
             end)
            (_unmountFromParent fuel (ce_instance kv.2) (Some that))).

(** The [while (data)] loop of [_rerenderInterrupted] for one interrupted
    component: invalidate up the chain of parents while they are rendered. *)
Fixpoint rerenderChain (fuel : nat) (that : ID) (invalidatePrepare : bool) {struct fuel} : M unit :=
  match fuel with
  | O => stuck
  | S n =>
      when invalidatePrepare (modData that _invalidatePrepareCache) ;;
      modData that _invalidateRenderCache ;;
      data <- getData that ;;
      let phase := phaseOf (flags data) in
      if negb (phase =? Phase_RENDERED)%Z && negb (phase =? Phase_RESTORING)%Z
      then ret tt
      else
        modData that _resetPendingRender ;;
        match _renderParent data with
        | Some parent =>
            parentData <- getData parent ;;
            rerenderChain n parent (isPrepareChild parentData (_id data))
        | None => ret tt
        end
  end.

Definition _rerenderInterrupted (fuel : nat) (rootId : ID) : M unit :=
  items <- gets interruptedComponents ;;
  match nget items rootId with
  | Some item =>
      forEach (ii_interrupted item) (fun c => rerenderChain fuel c false) ;;
      modify (fun w => w_set_interruptedComponents
                         (jm_delete Nat.eqb (interruptedComponents w) rootId) w)
  | None => ret tt
  end.

(** The callback [scheduleRerenderInterrupted] schedules. *)
Definition rerenderAllInterrupted (fuel : nat) : M unit :=
  modify (w_set_rerenderInterruptedTimeout false) ;;
  items <- gets interruptedComponents ;;
  forEach items
    (fun kv => _rerenderInterrupted fuel kv.1 ;;
               _forceRender fuel (ii_root kv.2) false).

(** The two engine entry points application code can call from a hook. *)
Inductive Call :=
| CallRender (component : ID) (arg : Val) (options : RenderOptions)
| CallRenderRoot (component : ID) (arg : Val) (options : RenderOptions).

Section Engine.

(** The class of every component, and the clock behind [now()]: its value
    at the n-th reading. *)
Variable cls : ID -> Class.
Variable clock : nat -> Z.

Definition now : M Z :=
  fun w => Some (Ok (clock (ticks w)), w_set_ticks (S (ticks w)) w).

(** The render cache the constructor picks. *)
Definition newRenderCache (k : Class) : RenderCache :=
  let maxSize := getMaxRenderCacheSize k in
  if canHashRenderArg k then
    if (maxSize =? 1)%Z
    then SingleCache (SingleEntryCache.create (getRenderArgHash k))
    else HashedCache (HashCache.create maxSize (getRenderArgHash k))
  else ScanCache (Cache.create maxSize (sameShallow sameValueZero)).

(** [new Component(...)]: the internal data right after construction. *)
Definition newInternalData (id : ID) : InternalData :=
  let k := cls id in
  let d := mkInternalData Phase_CREATING id (defaults k) None None None None None VNull
                          (newRenderCache k) None VNull [] None false false None in
  let d := _resetPendingRender d in
  match initializeError k with
  | Some error =>
      set_flags (addFlag (flags d) FLAG_ERROR_DURING_INITIALIZE)
                (set_uncommonData (Some (ud_set_renderError error emptyUncommonData)) d)
  | None => d
  end.

Definition getModifiedContext (that : ID) : M Context.t :=
  data <- getData that ;;
  let base := default emptyContext (_context data) in
  let prepareModifications := getPrepareContextModifications (cls that) (state data) in
  modData that ensureChildrenData ;;
  data <- getData that ;;
  fresh <- gets nextObject ;;
  let '(prepareContext, cache1, fresh1) :=
    applyModificationsCached Context.sameValue base prepareModifications
      (modifiedPrepareContextCache (theChildrenData data)) fresh in
  modData that (modChildrenData (cd_set_modifiedPrepareContextCache cache1)) ;;
  modify (w_set_nextObject fresh1) ;;
  if negb (hasFlag (flags data) FLAG_PREPARED) then ret prepareContext
  else
    let modifications := getContextModifications (cls that) (state data) (_prepareResult data) in
    let '(context, cache2, fresh2) :=
      applyModificationsCached Context.sameValue prepareContext modifications
        (modifiedContextCache (theChildrenData data)) fresh1 in
    modData that (modChildrenData (cd_set_modifiedContextCache cache2)) ;;
    modify (w_set_nextObject fresh2) ;;
    ret context.

(** [givenContext || (parent ? parent.getModifiedContext() : emptyContext)] *)
Definition receivedContext (parent : option ID) (givenContext : option Context.t)
  : M Context.t :=
  match givenContext with
  | Some c => ret c
  | None => match parent with
            | Some p => getModifiedContext p
            | None => ret emptyContext
            end
  end.

Definition _updateContext (that : ID) (parent : option ID) (givenContext : option Context.t)
  : M unit :=
  data <- getData that ;;
  let prevContext := _context data in
  context <- receivedContext parent givenContext ;;
  if negb (match prevContext with Some prev => Context.same context prev | None => false end)
  then
    modData that (fun d => set_boundContext None (set_context (Some context) d)) ;;
    names <- gets contextNamesByKey ;;
    data <- getData that ;;
    when (didContextChange names (Some context) prevContext (_usedContextAttributes data))
         (modData that _invalidatePrepareCache ;; modData that _invalidateRenderCache) ;;
    data <- getData that ;;
    when (negb (hasFlag (flags data) FLAG_ERROR_DURING_INITIALIZE))
         (logEv (EvReceiveContext that prevContext))
  else ret tt.

Section WithFuel.

(** [gas] bounds the walks over the tree of components the engine makes on
    its own (unmounting, climbing to the root, the prepare loop). *)
Variable gas : nat.

Definition _remount (that : ID) (wasMounted : bool) (prevParent newParent : option ID)
           (context : option Context.t) : M unit :=
  when wasMounted (_unmountFromParent gas that prevParent) ;;
  _updateContext that newParent context ;;
  data <- getData that ;;
  when (negb (hasFlag (flags data) FLAG_ERROR_DURING_INITIALIZE))
       (when (negb wasMounted) (logEv (EvAppear that)) ;;
        logEv (EvMount that)).

Definition _enterRender (that : ID) (context : option Context.t) : M unit :=
  modData that (fun d => set_flags (setPhaseFlags (clearFlag (flags d) FLAG_KEPT_MOUNTED)
                                                  Phase_MOUNTING) d) ;;
  modData that (set_pendingRender false) ;;
  data <- getData that ;;
  let prevParent := _renderParent data in
  newParent <- gets getCurrentRenderParent ;;
  let wasMounted := hasFlag (flags data) FLAG_MOUNTED in
  modData that (fun d => set_renderParent newParent
                           (set_flags (addFlag (flags d) FLAG_MOUNTED) d)) ;;
  modData that (fun d => set_flags (clearFlag (flags d) FLAG_NEEDS_RENDER_AFTER_RENDER) d) ;;
  if negb (ID_eqb newParent prevParent)
     || (negb (bool_decide (is_Some newParent)) && negb wasMounted)
  then _remount that wasMounted prevParent newParent context
  else _updateContext that newParent context.

Definition _childFinishedRender (this child : ID) (result : Val) : M unit :=
  childData <- getData child ;;
  uid <- alloc ;;
  let info := mkCacheEntry uid result child (renderedChildrenOf childData)
                           (_context childData) (_usedContextAttributes childData) 0 in
  modData this (modChildrenData
                  (fun cd => cd_set_renderedChildren
                               (nset (renderedChildren cd) (_id childData) info) cd)) ;;
  childData <- getData child ;;
  modData this (fun d => set_usedContextAttributes
                           (addUsedContextAttributes (_usedContextAttributes d)
                                                     (_usedContextAttributes childData)) d).

(** Sets the component up to use a cached render result; cached children
    found under another parent are remounted, and the walk goes on through
    the children recorded in the entry. *)
Fixpoint _useCache (that : ID) (cacheEntry : CacheEntry) {struct cacheEntry} : M unit :=
  match cacheEntry with
  | mkCacheEntry uid result _ children _ used _ =>
      modData that (set_renderResult result) ;;
      modData that (fun d =>
                      match children with
                      | Some ch => modChildrenData (cd_set_renderedChildren ch) d
                      | None =>
                          match childrenData d with
                          | Some cd => set_childrenData (Some (cd_set_renderedChildren [] cd)) d
                          | None => d
                          end
                      end) ;;
      modData that (set_usedContextAttributes used) ;;
      data <- getData that ;;
      match _renderParent data with
      | Some parent =>
          modData parent (fun pd => set_usedContextAttributes
                                      (addUsedContextAttributes (_usedContextAttributes pd) used)
                                      pd)
      | None => ret tt
      end ;;
      logEv (EvCachedRender that result) ;;
      data <- getData that ;;
      if ID_eqb (Some uid) (_currentlyUsedCache data) then ret tt
      else
        modData that (set_currentlyUsedCache (Some uid)) ;;
        match children with
        | None => ret tt
        | Some ch =>
            (fix walk (ch : list (ID * CacheEntry)) : M unit :=
               match ch with
               | [] => ret tt
               | (_, entry) :: rest =>
                   let child := ce_instance entry in
                   childData <- getData child ;;
                   when (negb (ID_eqb (_renderParent childData) (Some that)))
                        (let wasMounted := hasFlag (flags childData) FLAG_MOUNTED in
                         let prevParent := _renderParent childData in
                         modData child
                           (fun d => set_flags (setPhaseFlags (addFlag (flags d) FLAG_MOUNTED)
                                                              Phase_RESTORING)
                                               (set_renderParent (Some that) d)) ;;
                         _remount child wasMounted prevParent (Some that) None) ;;
                   modData child (setPhase Phase_RENDERED) ;;
                   _useCache child entry ;;
                   walk rest
               end) ch
        end
  end.

(** [this.getContext().get(name)]: the read is recorded in the component's
    bit field of used attributes. *)
Definition contextGet (that : ID) (name : string) : M Val :=
  data <- getData that ;;
  match _context data with
  | None => throw (VObj 0 [("name"%string, VStr "TypeError")])
  | Some context =>
      match _boundContext data with
      | Some _ => ret tt
      | None => b <- alloc ;; modData that (set_boundContext (Some b))
      end ;;
      names <- gets contextNamesByKey ;;
      key <- match list_find (String.eqb name) names with
             | Some (key, _) => ret key
             | None =>
                 modify (fun w => w_set_contextNamesByKey (contextNamesByKey w ++ [name]) w) ;;
                 ret (length names)
             end ;;
      modData that (fun d => set_usedContextAttributes (setBit (_usedContextAttributes d) key) d) ;;
      ret (Context.attr context name)
  end.

(** One turn of the loop of [_setState] over the own properties of [values];
    the accumulator is [hasChanged] and the resolvers collected so far. *)
Definition setStateStep (that : ID) (acc : bool * list nat) (kv : string * Val)
  : M (bool * list nat) :=
  let '(name, value) := kv in
  data <- getData that ;;
  let oldValue := default VUndef (sget (state data) name) in
  if negb (strict_eq oldValue value) && negb (isNaN oldValue && isNaN value) then
    modData that (fun d => set_state (sset (state d) name value) d) ;;
    when (hasChangeListener (cls that) name) (logEv (EvChange that name value oldValue)) ;;
    data <- getData that ;;
    when (Phase_MOUNTING <? phaseOf (flags data))%Z
         (modData that
            (fun d =>
               let changedAttrs := default [] (_changedAttributesSincePrepare d) in
               set_changedAttributesSincePrepare
                 (Some (if bool_decide (name ∈ changedAttrs) then changedAttrs
                        else changedAttrs ++ [name])) d)) ;;
    data <- getData that ;;
    match uncommonData data with
    | Some u =>
        match sget (stateWaiters u) name with
        | Some waiters =>
            let hit (w : option Waiter) : bool :=
              match w with Some (v, _) => strict_eq value v | None => false end in
            let resolvers := omap (fun w : option Waiter =>
                                     if hit w then snd <$> w else None) waiters in
            let waiters' := map (fun w : option Waiter => if hit w then None else w) waiters in
            modData that
              (fun d => set_uncommonData
                          (Some (ud_set_stateWaiters (sset (stateWaiters u) name waiters') u)) d) ;;
            ret (true, acc.2 ++ resolvers)
        | None => ret (true, acc.2)
        end
    | None => ret (true, acc.2)
    end
  else ret acc.

Fixpoint setStateLoop (that : ID) (values : list (string * Val)) (acc : bool * list nat)
  : M (bool * list nat) :=
  match values with
  | [] => ret acc
  | kv :: rest => acc' <- setStateStep that acc kv ;; setStateLoop that rest acc'
  end.

Definition _setState (that : ID) (values : list (string * Val)) : M unit :=
  acc <- setStateLoop that values (false, []) ;;
  let '(hasChanged, allWaiters) := acc in
  if hasChanged then
    forEach allWaiters (fun r => logEv (EvWaiterResolved that r)) ;;
    _forceRender gas that false
  else ret tt.

(** [rec] is the engine itself, one level of fuel down: what a hook reaches
    when it renders a component. *)
Variable rec : Call -> M Val.

Fixpoint runProg (that : ID) (p : Prog) : M Val :=
  match p with
  | PRet v => ret v
  | PThrow e => throw e
  | PRender child arg options k =>
      v <- rec (CallRender child arg options) ;; runProg that (k v)
  | PRenderRoot root arg options k =>
      v <- rec (CallRenderRoot root arg options) ;; runProg that (k v)
  | PContextGet name k =>
      v <- contextGet that name ;; runProg that (k v)
  | PGetState name k =>
      data <- getData that ;; runProg that (k (default VUndef (sget (state data) name)))
  | PSetState target values k =>
      _setState target values ;; runProg that k
  | PForceRender target k =>
      _forceRender gas target false ;; runProg that k
  end.

Definition promiseState (p : nat) : M PromiseState :=
  gets (fun w => default PPending (promises w !! p)).

(** Returns the error of a failed preparation, [RenderPending] for an
    outstanding one, and [null] otherwise. *)
Definition _doPrepare (that : ID) : M Val :=
  modData that (fun d => set_flags
                           (setPhaseFlags
                              (clearFlag (clearFlag (flags d) FLAG_PREPARED)
                                         FLAG_NEEDS_PREPARE_AFTER_PREPARE)
                              Phase_PREPARING) d) ;;
  logEv (EvDoPrepare that) ;;
  r <- tryCatch (runProg that (doPrepare (cls that))) ;;
  let '(success, result) := match r with
                            | Ok v => (true, v)
                            | Thrown e => (false, e)
                            end in
  sr <- match result with
        | VPromise p =>
            st <- promiseState p ;;
            ret (match st with
                 | PFulfilled v => (success, v)
                 | PRejected e => (false, e)
                 | PPending => (success, result)
                 end)
        | _ => ret (success, result)
        end ;;
  let '(success, result) := sr in
  if negb success then
    modData that (set_prepare None) ;;
    ret result
  else
    match result with
    | VPromise p =>
        modData that (set_prepare (Some p)) ;;
        ret (VPending 0)
    | _ =>
        modData that (fun d => set_prepare None
                                 (set_prepareResult result
                                    (set_flags (addFlag (flags d) FLAG_PREPARED) d))) ;;
        ret VNull
    end.

(** The two continuations [_doPrepare] hands to the promise, run by the
    environment when the promise [p] settles. *)
Definition prepareResolved (that : ID) (p : nat) (value : Val) : M unit :=
  data <- getData that ;;
  if ID_eqb (_prepare data) (Some p) then
    modData that (fun d => set_prepare None
                             (set_prepareResult value
                                (set_flags (addFlag (flags d) FLAG_PREPARED) d))) ;;
    _forceRender gas that false
  else ret tt.

Definition prepareRejected (that : ID) (error : Val) : M unit :=
  _forceRender gas that false ;;
  when (negb (isRenderPending error))
       (modData that (fun d => set_uncommonData
                                 (Some (ud_set_renderError error
                                          (theUncommonData (ensureUncommonData d))))
                                 (ensureUncommonData d))).

(** The [do ... while] around [_doPrepare]. *)
Fixpoint prepareLoop (fuel : nat) (that : ID) {struct fuel} : M unit :=
  match fuel with
  | O => stuck
  | S n =>
      error <- _doPrepare that ;;
      data <- getData that ;;
      match childrenData data with
      | Some cd =>
          let pc := renderedChildren cd in
          modData that (modChildrenData (cd_set_prepareChildren pc)) ;;
          forEach pc
            (fun kv =>
               childData <- getData (ce_instance kv.2) ;;
               modData that (fun d => set_usedContextAttributes
                                        (addUsedContextAttributes
                                           (_usedContextAttributes d)
                                           (_usedContextAttributes childData)) d))
      | None => ret tt
      end ;;
      if truthy error then throw error
      else
        data <- getData that ;;
        if hasFlag (flags data) FLAG_NEEDS_PREPARE_AFTER_PREPARE
        then prepareLoop n that
        else ret tt
  end.

Definition isPreparePending (data : InternalData) : M bool :=
  match _prepare data with
  | Some p => st <- promiseState p ;;
              ret (match st with PPending => true | _ => false end)
  | None => ret false
  end.

(** The cache lookup of [_doRender]: the entry for [arg], unless it is
    missing, a context attribute it depends on changed, or [shouldRender]
    asks for a fresh render. *)
Definition reusableEntry (that : ID) (names : list string) (data : InternalData) (arg : Val)
  : option CacheEntry :=
  match rc_getEntry (_renderCache data) arg with
  | Some cached =>
      if didContextChange names (_context data) (ce_context cached)
                          (ce_usedContextAttributes cached)
         || shouldRender (cls that) (state data) arg (_prepareResult data)
      then None
      else Some cached
  | None => None
  end.

Definition _doRender (that : ID) (arg : Val) : M Val :=
  data <- getData that ;;
  pending <- isPreparePending data ;;
  if pending then throw (VPending 0)
  else
    let changedAttrs := _changedAttributesSincePrepare data in
    (if negb (hasFlag (flags data) FLAG_PREPARED)
        || shouldPrepare (cls that) (state data) (default [] changedAttrs)
     then
       modData that (set_usedContextAttributes []) ;;
       modData that (fun d => match _changedAttributesSincePrepare d with
                              | Some _ => set_changedAttributesSincePrepare (Some []) d
                              | None => d
                              end) ;;
       modData that _invalidateRenderCache ;;
       prepareLoop gas that
     else
       modData that (fun d => match childrenData d with
                              | Some cd =>
                                  set_childrenData
                                    (Some (cd_set_renderedChildren (prepareChildren cd) cd)) d
                              | None => d
                              end)) ;;
    data <- getData that ;;
    let prepareResult := _prepareResult data in
    names <- gets contextNamesByKey ;;
    match reusableEntry that names data arg with
    | None =>
        modData that (setPhase Phase_RENDERING) ;;
        previousCount <- gets (fun w => renderComponentCount (renderState w)) ;;
        logEv (EvDoRender that arg prepareResult) ;;
        renderResult <- runProg that (doRender (cls that) arg prepareResult) ;;
        data <- getData that ;;
        when (negb (strict_eq renderResult VInterrupt)
              && negb (hasFlag (flags data) FLAG_NEEDS_RENDER_AFTER_RENDER))
             (count <- gets (fun w => renderComponentCount (renderState w)) ;;
              uid <- alloc ;;
              let cacheEntry :=
                mkCacheEntry uid renderResult that (renderedChildrenOf data)
                             (_context data) (_usedContextAttributes data)
                             (count - previousCount) in
              modData that
                (fun d => set_currentlyUsedCache (Some uid)
                            (set_renderCache (rc_setEntry (_renderCache d) arg cacheEntry) d))) ;;
        ret renderResult
    | Some entry =>
        _useCache that entry ;;
        modRenderState
          (fun rs => rs_set_renderComponentCount
                       (renderComponentCount rs + ce_descendantCount entry) rs) ;;
        ret (ce_result entry)
    end.

(** [_performRender], first part: remember the previous children, push the
    component on the render stack, and ask whether to interrupt.  Returns
    [prevChildren] and [shouldInterrupt]. *)
Definition performRender_begin (that : ID) (keepExistingChildren : bool)
  : M (option Children * bool) :=
  data <- getData that ;;
  let prevChildren := renderedChildrenOf data in
  when (negb keepExistingChildren)
       (modData that (fun d => match childrenData d with
                               | Some cd => set_childrenData
                                              (Some (cd_set_renderedChildren [] cd)) d
                               | None => d
                               end)) ;;
  pushToRenderStack that ;;
  modData that (setPhase Phase_RENDERING) ;;
  rs <- gets renderState ;;
  let newComponents := (renderComponentCount rs - lastRenderComponentCount rs)%Z in
  let mayInterrupt := isRenderInterrupted rs || negb (lastRenderWasInterrupted rs)
                      || (0 <? newComponents)%Z in
  shouldInterrupt <-
    (if mayInterrupt then
       t <- now ;;
       data <- getData that ;;
       ret (shouldInterruptRender (cls that) (state data) (renderInterruptGeneration rs)
                                  (t - renderStartTime rs)%Z newComponents)
     else ret false) ;;
  when (shouldInterrupt && negb (isRenderInterrupted rs))
       (modRenderState
          (fun rs => rs_set_renderInterruptGeneration
                       (renderInterruptGeneration rs + 1)%Z
                       (rs_set_isRenderInterrupted true rs))) ;;
  ret (prevChildren, shouldInterrupt).

(** The guarded attempt: [RENDER_INTERRUPT] when interrupting, else the
    error hook if there is an error to render, else [_doRender]; what is
    thrown is caught.  Returns [success] and [resultOrException]. *)
Definition performRender_attempt (that : ID) (arg error : Val) (shouldInterrupt : bool)
  : M (bool * Val) :=
  if shouldInterrupt then ret (true, VInterrupt)
  else
    r <- tryCatch (if truthy error
                   then logEv (EvDoRenderError that arg error) ;;
                        runProg that (doRenderError (cls that) arg error)
                   else _doRender that arg) ;;
    ret (match r with
         | Ok v => (true, v)
         | Thrown err => (false, err)
         end).

(** An interrupted component is recorded under the root of the pass. *)
Definition recordInterrupted (that : ID) : M unit :=
  root <- gets getCurrentRenderRoot ;;
  match root with
  | Some root =>
      rootData <- getData root ;;
      let id := _id rootData in
      modify (fun w =>
                let items := interruptedComponents w in
                let item := default (mkInterruptedItem root []) (nget items id) in
                w_set_interruptedComponents
                  (nset items id (mkInterruptedItem (ii_root item)
                                                    (ii_interrupted item ++ [that]))) w) ;;
      scheduleRerenderInterrupted
  | None => ret tt
  end.

(** The rest of [_performRender], from [isInterrupted] on.  Returns
    [isPending], [renderResult] and [renderError]. *)
Definition performRender_finish (that : ID) (arg : Val) (isRequired isOptional : bool)
           (keepExistingChildren : bool) (prevChildren : option Children)
           (success : bool) (resultOrException : Val)
  : M (bool * Val * Val) :=
  let isInterrupted := strict_eq resultOrException VInterrupt in
  when isInterrupted (recordInterrupted that) ;;
  data <- getData that ;;
  let parentData := _renderParent data in
  res <-
    (if success && negb isInterrupted then
       modData that (set_pendingCompleteRender false) ;;
       ret (false, resultOrException, VUndef)
     else if isInterrupted || isRenderPending resultOrException then
       match prevChildren with
       | Some prev =>
           modData that ensureChildrenData ;;
           forEach prev
             (fun kv => modData that
                          (modChildrenData
                             (fun cd => cd_set_renderedChildren
                                          (nset (renderedChildren cd) kv.1 kv.2) cd)))
       | None => ret tt
       end ;;
       wait <- match parentData with
               | Some parent =>
                   data <- getData that ;;
                   ret (negb isOptional && shouldWaitForChildren (cls parent) (state data))
               | None => ret false
               end ;;
       if isRequired || wait then ret (true, VUndef, VUndef)
       else
         logEv (EvDoRenderPending that arg) ;;
         renderResult <- runProg that (doRenderPending (cls that) arg) ;;
         ret (false, renderResult, VUndef)
     else ret (false, VUndef, resultOrException)) ;;
  popFromRenderStack ;;
  when (negb keepExistingChildren)
       (data <- getData that ;;
        match prevChildren with
        | Some prev => _unmountPreviousChildren gas prev (renderedChildrenOf data) that
        | None => ret tt
        end) ;;
  let '(isPending, renderResult, renderError) := res in
  match parentData with
  | Some parent => _childFinishedRender parent that renderResult
  | None => ret tt
  end ;;
  ret (isPending, renderResult, renderError).

Definition _performRender (that : ID) (arg error : Val) (isRequired isOptional : bool)
           (keepExistingChildren : bool) : M (bool * Val * Val) :=
  begun <- performRender_begin that keepExistingChildren ;;
  let '(prevChildren, shouldInterrupt) := begun in
  attempt <- performRender_attempt that arg error shouldInterrupt ;;
  let '(success, resultOrException) := attempt in
  performRender_finish that arg isRequired isOptional keepExistingChildren prevChildren
                       success resultOrException.

(** [_render]; [remaining] is [10 - recursion], the number of immediate
    re-renders still allowed. *)
Fixpoint _render (remaining : nat) (that : ID) (arg : Val) (context : option Context.t)
         (isRequired isOptional : bool) {struct remaining} : M Val :=
  data <- getData that ;;
  let previousRenderError := match uncommonData data with
                             | Some u => renderError u
                             | None => VNull
                             end in
  result <- (if truthy previousRenderError
             then _performRender that arg previousRenderError isRequired isOptional false
             else _performRender that arg VNull isRequired isOptional false) ;;
  let '(isPending, renderResult, renderError) := result in
  result' <-
    (if negb isPending && truthy renderError then
       errorResult <- _performRender that arg renderError isRequired isOptional true ;;
       let repeatedError := errorResult.2 in
       if truthy repeatedError then throw repeatedError
       else ret (errorResult.1.1, errorResult.1.2)
     else ret (isPending, renderResult)) ;;
  let '(isPending, renderResult) := result' in
  modData that (set_renderResult renderResult) ;;
  modData that (setPhase Phase_RENDERED) ;;
  interrupted <- gets (fun w => isRenderInterrupted (renderState w)) ;;
  when (negb interrupted)
       (modRenderState (fun rs => rs_set_renderComponentCount
                                    (renderComponentCount rs + 1)%Z rs)) ;;
  if isPending then throw (VPending 0)
  else
    data <- getData that ;;
    if hasFlag (flags data) FLAG_NEEDS_RENDER_AFTER_RENDER then
      match remaining with
      | S remaining' =>
          _enterRender that context ;;
          _render remaining' that arg context isRequired isOptional
      | O =>
          _forceRender gas that false ;;
          ret renderResult
      end
    else ret renderResult.

Definition outsideRenderError : Val :=
  VObj 0 [("message"%string, VStr "Rendering component outside Component.render")].

Definition render (that : ID) (arg : Val) (options : RenderOptions) : M Val :=
  rendering <- gets (fun w => isRendering (renderState w)) ;;
  if negb rendering then throw outsideRenderError
  else
    _enterRender that (opt_context options) ;;
    _render 10 that arg (opt_context options) (opt_isRequired options) (opt_isOptional options).

(** The [finally] block of [renderRoot]. *)
Definition renderRoot_finally (that : ID) (oldState : RenderStateSnapshot) : M unit :=
  isInterrupted <- gets (fun w => isRenderInterrupted (renderState w)) ;;
  modData that (fun d => set_flags
                           (if isInterrupted
                            then addFlag (flags d) FLAG_RENDER_ROOT_WAS_INTERRUPTED
                            else clearFlag (flags d) FLAG_RENDER_ROOT_WAS_INTERRUPTED) d) ;;
  rs <- gets renderState ;;
  modData that (modRootData
                  (fun rd => rd_set_componentCount (renderComponentCount rs)
                               (rd_set_interruptGeneration
                                  (if isInterrupted then renderInterruptGeneration rs else 0%Z)
                                  rd))) ;;
  restoreState oldState.

Definition renderRoot (that : ID) (arg : Val) (options : RenderOptions) : M Val :=
  data <- getData that ;;
  _rerenderInterrupted gas (_id data) ;;
  oldState <- resetState ;;
  modRenderState (rs_set_isRendering true) ;;
  data <- getData that ;;
  modRenderState (rs_set_lastRenderWasInterrupted
                    (hasFlag (flags data) FLAG_RENDER_ROOT_WAS_INTERRUPTED)) ;;
  modData that ensureRootData ;;
  data <- getData that ;;
  let rootData := theRootData data in
  modRenderState (rs_set_lastRenderComponentCount (componentCount rootData)) ;;
  modRenderState (rs_set_renderInterruptGeneration (interruptGeneration rootData)) ;;
  t <- now ;;
  modRenderState (rs_set_renderStartTime t) ;;
  r <- tryCatch (render that arg options) ;;
  renderRoot_finally that oldState ;;
  match r with
  | Ok v => ret v
  | Thrown e => throw e
  end.

Definition unrenderRoot (that : ID) : M unit :=
  data <- getData that ;;
  match _renderParent data with
  | Some _ => ret tt
  | None => _unmountFromParent gas that None
  end.

Definition dispatch (call : Call) : M Val :=
  match call with
  | CallRender c arg options => render c arg options
  | CallRenderRoot c arg options => renderRoot c arg options
  end.

End WithFuel.

(** The engine with [fuel] levels of nested hook calls; the same number
    bounds its own walks. *)
Fixpoint exec (fuel : nat) (call : Call) {struct fuel} : M Val :=
  match fuel with
  | O => stuck
  | S n => dispatch n (exec n) call
  end.

End Engine.

(** ** Worlds to start from *)

Definition emptyWorld : World :=
  mkWorld ∅ [] (mkRenderState false false false 0 0 0 0) [] false [] false [] ∅ 1 0 [].

(** The application constructs its components; nothing is mounted yet. *)
Definition construct (cls : ID -> Class) (ids : list ID) (w : World) : World :=
  foldl (fun w id => w_set_heap (<[id := newInternalData cls id]> (heap w)) w) w ids.

(** What a call leaves behind: its outcome and the world, if it finished. *)
Definition outcomeOf {A} (r : option (Outcome A * World)) : option (Outcome A) := fst <$> r.
Definition worldOf {A} (r : option (Outcome A * World)) (w0 : World) : World :=
  match r with Some (_, w) => w | None => w0 end.

(** A sequence of top-level calls made by the application, each on the world
    the previous one left; outcomes are collected in order. *)
Fixpoint runAll (steps : list (M Val)) (w : World) : option (list (Outcome Val) * World) :=
  match steps with
  | [] => Some ([], w)
  | m :: rest =>
      match m w with
      | Some (r, w') =>
          match runAll rest w' with
          | Some (rs, w'') => Some (r :: rs, w'')
          | None => None
          end
      | None => None
      end
  end.


(** * Example components

    Subclasses of [Component] are written by overriding hooks of the base
    class, one [override_...] per hook. *)

Definition override_defaults (v : list (string * Val)) (k : Class) : Class :=
  mkClass v (initializeError k) (doPrepare k) (doRender k) (doRenderPending k) (doRenderError k) (shouldPrepare k) (shouldRender k) (shouldWaitForChildren k) (shouldInterruptRender k) (getPrepareContextModifications k) (getContextModifications k) (getMaxRenderCacheSize k) (canHashRenderArg k) (getRenderArgHash k) (hasChangeListener k).

Definition override_initializeError (v : option Val) (k : Class) : Class :=
  mkClass (defaults k) v (doPrepare k) (doRender k) (doRenderPending k) (doRenderError k) (shouldPrepare k) (shouldRender k) (shouldWaitForChildren k) (shouldInterruptRender k) (getPrepareContextModifications k) (getContextModifications k) (getMaxRenderCacheSize k) (canHashRenderArg k) (getRenderArgHash k) (hasChangeListener k).

Definition override_doPrepare (v : Prog) (k : Class) : Class :=
  mkClass (defaults k) (initializeError k) v (doRender k) (doRenderPending k) (doRenderError k) (shouldPrepare k) (shouldRender k) (shouldWaitForChildren k) (shouldInterruptRender k) (getPrepareContextModifications k) (getContextModifications k) (getMaxRenderCacheSize k) (canHashRenderArg k) (getRenderArgHash k) (hasChangeListener k).

Definition override_doRender (v : Val -> Val -> Prog) (k : Class) : Class :=
  mkClass (defaults k) (initializeError k) (doPrepare k) v (doRenderPending k) (doRenderError k) (shouldPrepare k) (shouldRender k) (shouldWaitForChildren k) (shouldInterruptRender k) (getPrepareContextModifications k) (getContextModifications k) (getMaxRenderCacheSize k) (canHashRenderArg k) (getRenderArgHash k) (hasChangeListener k).

Definition override_doRenderPending (v : Val -> Prog) (k : Class) : Class :=
  mkClass (defaults k) (initializeError k) (doPrepare k) (doRender k) v (doRenderError k) (shouldPrepare k) (shouldRender k) (shouldWaitForChildren k) (shouldInterruptRender k) (getPrepareContextModifications k) (getContextModifications k) (getMaxRenderCacheSize k) (canHashRenderArg k) (getRenderArgHash k) (hasChangeListener k).

Definition override_doRenderError (v : Val -> Val -> Prog) (k : Class) : Class :=
  mkClass (defaults k) (initializeError k) (doPrepare k) (doRender k) (doRenderPending k) v (shouldPrepare k) (shouldRender k) (shouldWaitForChildren k) (shouldInterruptRender k) (getPrepareContextModifications k) (getContextModifications k) (getMaxRenderCacheSize k) (canHashRenderArg k) (getRenderArgHash k) (hasChangeListener k).

Definition override_shouldPrepare (v : list (string * Val) -> list string -> bool) (k : Class) : Class :=
  mkClass (defaults k) (initializeError k) (doPrepare k) (doRender k) (doRenderPending k) (doRenderError k) v (shouldRender k) (shouldWaitForChildren k) (shouldInterruptRender k) (getPrepareContextModifications k) (getContextModifications k) (getMaxRenderCacheSize k) (canHashRenderArg k) (getRenderArgHash k) (hasChangeListener k).

Definition override_shouldRender (v : list (string * Val) -> Val -> Val -> bool) (k : Class) : Class :=
  mkClass (defaults k) (initializeError k) (doPrepare k) (doRender k) (doRenderPending k) (doRenderError k) (shouldPrepare k) v (shouldWaitForChildren k) (shouldInterruptRender k) (getPrepareContextModifications k) (getContextModifications k) (getMaxRenderCacheSize k) (canHashRenderArg k) (getRenderArgHash k) (hasChangeListener k).

Definition override_shouldWaitForChildren (v : list (string * Val) -> bool) (k : Class) : Class :=
  mkClass (defaults k) (initializeError k) (doPrepare k) (doRender k) (doRenderPending k) (doRenderError k) (shouldPrepare k) (shouldRender k) v (shouldInterruptRender k) (getPrepareContextModifications k) (getContextModifications k) (getMaxRenderCacheSize k) (canHashRenderArg k) (getRenderArgHash k) (hasChangeListener k).

Definition override_shouldInterruptRender (v : list (string * Val) -> Z -> Z -> Z -> bool) (k : Class) : Class :=
  mkClass (defaults k) (initializeError k) (doPrepare k) (doRender k) (doRenderPending k) (doRenderError k) (shouldPrepare k) (shouldRender k) (shouldWaitForChildren k) v (getPrepareContextModifications k) (getContextModifications k) (getMaxRenderCacheSize k) (canHashRenderArg k) (getRenderArgHash k) (hasChangeListener k).

Definition override_getPrepareContextModifications (v : list (string * Val) -> Val) (k : Class) : Class :=
  mkClass (defaults k) (initializeError k) (doPrepare k) (doRender k) (doRenderPending k) (doRenderError k) (shouldPrepare k) (shouldRender k) (shouldWaitForChildren k) (shouldInterruptRender k) v (getContextModifications k) (getMaxRenderCacheSize k) (canHashRenderArg k) (getRenderArgHash k) (hasChangeListener k).

Definition override_getContextModifications (v : list (string * Val) -> Val -> Val) (k : Class) : Class :=
  mkClass (defaults k) (initializeError k) (doPrepare k) (doRender k) (doRenderPending k) (doRenderError k) (shouldPrepare k) (shouldRender k) (shouldWaitForChildren k) (shouldInterruptRender k) (getPrepareContextModifications k) v (getMaxRenderCacheSize k) (canHashRenderArg k) (getRenderArgHash k) (hasChangeListener k).

Definition override_getMaxRenderCacheSize (v : Z) (k : Class) : Class :=
  mkClass (defaults k) (initializeError k) (doPrepare k) (doRender k) (doRenderPending k) (doRenderError k) (shouldPrepare k) (shouldRender k) (shouldWaitForChildren k) (shouldInterruptRender k) (getPrepareContextModifications k) (getContextModifications k) v (canHashRenderArg k) (getRenderArgHash k) (hasChangeListener k).

Definition override_canHashRenderArg (v : bool) (k : Class) : Class :=
  mkClass (defaults k) (initializeError k) (doPrepare k) (doRender k) (doRenderPending k) (doRenderError k) (shouldPrepare k) (shouldRender k) (shouldWaitForChildren k) (shouldInterruptRender k) (getPrepareContextModifications k) (getContextModifications k) (getMaxRenderCacheSize k) v (getRenderArgHash k) (hasChangeListener k).

Definition override_getRenderArgHash (v : Val -> string) (k : Class) : Class :=
  mkClass (defaults k) (initializeError k) (doPrepare k) (doRender k) (doRenderPending k) (doRenderError k) (shouldPrepare k) (shouldRender k) (shouldWaitForChildren k) (shouldInterruptRender k) (getPrepareContextModifications k) (getContextModifications k) (getMaxRenderCacheSize k) (canHashRenderArg k) v (hasChangeListener k).

Definition override_hasChangeListener (v : string -> bool) (k : Class) : Class :=
  mkClass (defaults k) (initializeError k) (doPrepare k) (doRender k) (doRenderPending k) (doRenderError k) (shouldPrepare k) (shouldRender k) (shouldWaitForChildren k) (shouldInterruptRender k) (getPrepareContextModifications k) (getContextModifications k) (getMaxRenderCacheSize k) (canHashRenderArg k) (getRenderArgHash k) v.

Definition testClock (n : nat) : Z := Z.of_nat n.

(** An array literal [\[a, b\]] allocated at [addr]. *)
Definition array2 (addr : nat) (a b : Val) : Val :=
  VObj addr [("0"%string, a); ("1"%string, b)].

(** [component.renderRoot(arg)] called by the application. *)
Definition renderRootCall (cls : ID -> Class) (component : ID) (arg : Val) : M Val :=
  exec cls testClock 20 (CallRenderRoot component arg noOptions).

(** A scheduler tick on which the deferred disappearance handlers run. *)
Definition disappearTickCall : M Val := disappearTick ;; ret VUndef.

(** [component.setState(values)] called by the application. *)
Definition setStateCall (cls : ID -> Class) (component : ID) (values : list (string * Val))
  : M Val :=
  _setState cls 20 component values ;; ret VUndef.

(** The events of a run and its outcomes. *)
Definition traceOf (steps : list (M Val)) (w : World) : list Event :=
  match runAll steps w with
  | Some (_, w') => trace w'
  | None => []
  end.

Definition outcomesOf (steps : list (M Val)) (w : World) : option (list (Outcome Val)) :=
  fst <$> runAll steps w.

Definition finalWorld (steps : list (M Val)) (w : World) : World :=
  match runAll steps w with
  | Some (_, w') => w'
  | None => w
  end.

(** ** A leaf that returns its argument *)

Definition Echo : Class := override_doRender (fun arg _ => PRet arg) Component.

Definition echoClasses (_ : ID) : Class := Echo.

Definition echoWorld : World := construct echoClasses [1] emptyWorld.

(** The same leaf with [shouldRender] overridden to return [true]. *)
Definition Eager : Class := override_shouldRender (fun _ _ _ => true) Echo.

Definition eagerClasses (_ : ID) : Class := Eager.

Definition eagerWorld : World := construct eagerClasses [1] emptyWorld.

(** ** A parent whose two children ask for an interrupt *)

Definition pendingText : Val := VStr "pending".
Definition renderedText : Val := VStr "rendered".

Definition Pair : Class :=
  override_doRender
    (fun _ _ => PRender 2 VUndef noOptions
                  (fun a => PRender 3 VUndef noOptions (fun b => PRet (array2 100 a b))))
    (override_doRenderPending (fun _ => PRet pendingText) Component).

Definition Interrupting : Class :=
  override_shouldInterruptRender (fun _ _ _ _ => true)
    (override_doRender (fun _ _ => PRet renderedText)
       (override_doRenderPending (fun _ => PRet pendingText) Component)).

Definition Plain : Class :=
  override_doRender (fun _ _ => PRet renderedText)
    (override_doRenderPending (fun _ => PRet pendingText) Component).

(** Both children interrupt (the scenario of the test suite). *)
Definition interruptClasses (c : ID) : Class :=
  match c with
  | 1 => Pair
  | _ => Interrupting
  end.

(** Only the first child interrupts; the second keeps the default predicate. *)
Definition mixedClasses (c : ID) : Class :=
  match c with
  | 1 => Pair
  | 2 => Interrupting
  | _ => Plain
  end.

Definition pairWorld (cls : ID -> Class) : World := construct cls [1; 2; 3] emptyWorld.

(** ** A parent that renders its child only for argument [0] *)

Definition Toggle : Class :=
  override_doRender
    (fun arg _ => match arg with
                  | VNum 0 => PRender 2 VUndef noOptions PRet
                  | _ => PRet VUndef
                  end)
    Component.

Definition toggleClasses (c : ID) : Class :=
  match c with
  | 1 => Toggle
  | _ => Plain
  end.

Definition toggleWorld : World := construct toggleClasses [1; 2] emptyWorld.

(** ** A child moved between two parents

    The root [1] renders [3] and then [2]; component [4] is rendered by [2]
    for argument [0] and by [3] for argument [1], so on the second pass [3]
    takes it over while it is still mounted under [2]. *)
Definition MoveRoot : Class :=
  override_doRender
    (fun arg _ => PRender 3 arg noOptions (fun _ => PRender 2 arg noOptions PRet))
    Component.

Definition HolderFor (n : Z) : Class :=
  override_doRender
    (fun arg _ => if strict_eq arg (VNum n)
                  then PRender 4 VUndef noOptions PRet
                  else PRet VUndef)
    Component.

Definition moveClasses (c : ID) : Class :=
  match c with
  | 1 => MoveRoot
  | 2 => HolderFor 0
  | 3 => HolderFor 1
  | _ => Plain
  end.

Definition moveWorld : World := construct moveClasses [1; 2; 3; 4] emptyWorld.

(** ** A parent that fails after rendering its child *)

Definition failure : Val := VObj 200 [("message"%string, VStr "invalid child")].

Definition Failing : Class :=
  override_doRender (fun _ _ => PRender 2 VUndef noOptions (fun _ => PThrow failure))
    (override_doRenderError (fun _ _ => PRet (VStr "error"))
       (override_doRenderPending (fun _ => PRet pendingText) Component)).

(** The same, interrupting as soon as one component was rendered in the pass. *)
Definition FailingCounting : Class :=
  override_shouldInterruptRender (fun _ _ _ components => (0 <? components)%Z) Failing.

Definition failingClasses (c : ID) : Class :=
  match c with
  | 1 => Failing
  | _ => Plain
  end.

Definition failingCountingClasses (c : ID) : Class :=
  match c with
  | 1 => FailingCounting
  | _ => Plain
  end.

Definition failingWorld (cls : ID -> Class) : World := construct cls [1; 2] emptyWorld.

(** * Observations used in the statements *)

(** A computation leaves the observation [f] of the world alone. *)
Definition preserves {A X} (f : World -> X) (m : M A) : Prop :=
  forall w r w', m w = Some (r, w') -> f w' = f w.

(** The bookkeeping of a render pass: [renderState] and the render stack. *)
Definition passState (w : World) : RenderState * list ID := (renderState w, renderStack w).

Definition textHash (key : Val) : string :=
  match key with
  | VStr s => s
  | _ => EmptyString
  end.

(** A hash cache of capacity two holding the keys [a] and [b]. *)
Definition fullHashCache : HashCache.t nat :=
  HashCache.setEntry
    (HashCache.setEntry (HashCache.create 2 textHash) (VStr "a") 1)
    (VStr "b") 2.

(** No modified key gets a value different (under [!==]) from its current one. *)
Definition unchangedBy (self : Context.t) (modifications : Val) : bool :=
  forallb (fun kv : string * Val => strict_eq kv.2 (Context.attr self kv.1))
          (ownProps modifications).

(** A context with one attribute, and what three modifications do to it. *)
Definition sampleContext : Context.t := Context.mk 5 [("key"%string, VNum 1)].

(** Every supplied value equals the current value of its attribute under
    same-value-zero ([undefined] for an attribute the state does not have). *)
Definition allSameValueZero (st : list (string * Val)) (values : list (string * Val)) : bool :=
  forallb (fun kv : string * Val => sameValueZero (default VUndef (sget st kv.1)) kv.2 None)
          values.

(** A mounted, rendered component with listeners and a waiter on every
    attribute, ready to notice any change of state. *)
Definition Watched : Class :=
  override_hasChangeListener (fun _ => true)
    (override_defaults [("count"%string, VNum 1); ("ratio"%string, VNaN)] Echo).

Definition watchedClasses (_ : ID) : Class := Watched.

Definition watchedWorld : World :=
  let w := finalWorld [renderRootCall watchedClasses 1 (VNum 1)]
                      (construct watchedClasses [1] emptyWorld) in
  match heap w !! 1 with
  | Some d =>
      w_set_heap
        (<[1 := set_uncommonData
                  (Some (ud_set_stateWaiters
                           [("count"%string, [Some (VNum 2, 7)])]
                           (theUncommonData d))) d]> (heap w)) w
  | None => w
  end.

Definition sameValues : list (string * Val) :=
  [("count"%string, VNum 1); ("ratio"%string, VNaN); ("missing"%string, VUndef)].

(** ** A root rendered from within another root's pass *)

Definition Nesting : Class :=
  override_doRender (fun arg _ => PRenderRoot 2 arg noOptions PRet) Component.

Definition nestingClasses (c : ID) : Class :=
  match c with
  | 1 => Nesting
  | _ => Echo
  end.

Definition nestingWorld : World := construct nestingClasses [1; 2] emptyWorld.

(** The middle of a pass of root [1]: it is on the render stack, three
    components were rendered so far, and the previous pass was interrupted. *)
Definition midPassWorld : World :=
  w_set_renderStack [1]
    (w_set_renderState (mkRenderState true false true 4 17 2 3) nestingWorld).

Definition innerPass : M Val :=
  renderRoot nestingClasses testClock 5 (exec nestingClasses testClock 5) 2 (VNum 9) noOptions.

Definition afterInnerPass : World := worldOf (innerPass midPassWorld) midPassWorld.

(** An observation [π] of a component's data that receiving a context
    cannot change: it ignores the context fields, the two caches and the
    children record. *)
Definition contextStable {X} (π : InternalData -> X) : Prop :=
  (forall v d, π (set_context v d) = π d)
  /\ (forall v d, π (set_boundContext v d) = π d)
  /\ (forall d, π (_invalidatePrepareCache d) = π d)
  /\ (forall d, π (_invalidateRenderCache d) = π d)
  /\ (forall v d, π (set_childrenData v d) = π d).

(** The same observation of every component in two worlds. *)
Definition heapAgree {X} (π : InternalData -> X) (w w' : World) : Prop :=
  forall c, π <$> (heap w' !! c) = π <$> (heap w !! c).

(** Whether entering render (re)mounts the component [d] under the
    current top of the render stack. *)
Definition remounts (w : World) (d : InternalData) : bool :=
  negb (ID_eqb (getCurrentRenderParent w) (_renderParent d))
  || (negb (bool_decide (is_Some (getCurrentRenderParent w)))
      && negb (hasFlag (flags d) FLAG_MOUNTED)).

(** The lifecycle hooks entering render invokes on [that], in order. *)
Definition mountEvents (that : ID) (w : World) (d : InternalData) : list Event :=
  if remounts w d then
    if hasFlag (flags d) FLAG_MOUNTED then [EvMount that] else [EvAppear that; EvMount that]
  else [].

(** Every run of [m] that finishes relates the world before to the world
    after by [R]. *)
Definition frames {A} (R : World -> World -> Prop) (m : M A) : Prop :=
  forall w r w', m w = Some (r, w') -> R w w'.

(** A run of [m] that finishes returns; it never throws. *)
Definition returns {A} (m : M A) : Prop :=
  forall w r w', m w = Some (r, w') -> exists a, r = Ok a.

(** The trace grew, by events that all satisfy [P]. *)
Definition traceGrows (P : Event -> Prop) (w w' : World) : Prop :=
  exists evs, trace w' = trace w ++ evs /\ Forall P evs.

Definition isReceiveContext (that : ID) (e : Event) : Prop :=
  exists prev, e = EvReceiveContext that prev.

(** The component of the hook an event records. *)
Definition eventComponent (e : Event) : ID :=
  match e with
  | EvAppear c | EvMount c | EvUnmount c | EvDisappear c
  | EvReceiveContext c _ | EvDoPrepare c | EvDoRender c _ _
  | EvDoRenderPending c _ | EvDoRenderError c _ _ | EvCachedRender c _
  | EvChange c _ _ _ | EvWaiterResolved c _ | EvRequestRender c => c
  end.

Definition eventsOf (c : ID) (events : list Event) : list Event :=
  filter (fun e => eventComponent e = c) events.

(** ** The toggled child, about to be rendered again

    After a pass that rendered child [2] and a pass that did not, the third
    pass is under way: parent [1] is on the render stack and renders [2]. *)
Definition toggledWorld : World :=
  finalWorld [renderRootCall toggleClasses 1 (VNum 0);
              renderRootCall toggleClasses 1 (VNum 1);
              disappearTickCall] toggleWorld.

Definition reenterWorld : World :=
  w_set_renderStack [1]
    (w_set_renderState (rs_set_isRendering true (renderState toggledWorld)) toggledWorld).

Definition reenterData : InternalData :=
  default (newInternalData toggleClasses 2) (heap reenterWorld !! 2).

Definition afterReenter : World :=
  worldOf (_enterRender toggleClasses 5 2 None reenterWorld) reenterWorld.

(** What the component's [shouldInterruptRender] answers when it is
    consulted in world [w]: it is given the interrupt generation, the time
    since the pass started and the number of components rendered beyond the
    previous pass. *)
Definition interruptRequest (cls : ID -> Class) (clock : nat -> Z) (that : ID)
           (d : InternalData) (w : World) : bool :=
  let rs := renderState w in
  shouldInterruptRender (cls that) (state d) (renderInterruptGeneration rs)
                        (clock (ticks w) - renderStartTime rs)%Z
                        (renderComponentCount rs - lastRenderComponentCount rs)%Z.

(** [that] has been appended to the interrupted components kept for the
    root. *)
Definition recordedUnder (root : ID) (rootData : InternalData) (that : ID)
           (before after : World) : Prop :=
  let item := default (mkInterruptedItem root [])
                      (nget (interruptedComponents before) (_id rootData)) in
  nget (interruptedComponents after) (_id rootData)
  = Some (mkInterruptedItem (ii_root item) (ii_interrupted item ++ [that])).


(** The middle of an interrupted pass of root [1]: child [2] has been
    interrupted, child [3] has entered render. *)
Definition interruptedPassWorld (cls : ID -> Class) : World :=
  let w := w_set_renderStack [1]
             (w_set_renderState (mkRenderState true true false 0 0 1 0) (pairWorld cls)) in
  worldOf (_enterRender cls 5 3 None w) w.

Definition performThird (cls : ID -> Class) : M (bool * Val * Val) :=
  _performRender cls testClock 5 (exec cls testClock 5) 3 VUndef VNull false false false.

Definition afterThird (cls : ID -> Class) : World :=
  worldOf (performThird cls (interruptedPassWorld cls)) (interruptedPassWorld cls).

Definition thirdData (cls : ID -> Class) : InternalData :=
  default (newInternalData cls 3) (heap (interruptedPassWorld cls) !! 3).

Definition rootData1 (cls : ID -> Class) : InternalData :=
  default (newInternalData cls 1) (heap (interruptedPassWorld cls) !! 1).

(** ** Observations of mounting *)

(** Whether a component is mounted, and under which parent. *)
Definition mountState (d : InternalData) : bool * option ID :=
  (hasFlag (flags d) FLAG_MOUNTED, _renderParent d).

(** The rendered children recorded for component [c]. *)
Definition childrenIn (w : World) (c : ID) : option Children :=
  heap w !! c ≫= renderedChildrenOf.

(** The render parent of every component of [S] is itself in [S]. *)
Definition closedUnderParent (S : list ID) (w : World) : bool :=
  forallb (fun s => match heap w !! s with
                    | Some d => match _renderParent d with
                                | Some p => bool_decide (p ∈ S)
                                | None => true
                                end
                    | None => true
                    end) S.

(** The previous children [_unmountPreviousChildren] unmounts: those whose
    key is not among the next children. *)
Definition dropped (prevChildren nextChildren : option Children) : list ID :=
  match prevChildren with
  | Some prev =>
      (fun kv : ID * CacheEntry => ce_instance kv.2)
        <$> filter (fun kv : ID * CacheEntry =>
                      match nextChildren with
                      | Some next => negb (nhas next kv.1)
                      | None => true
                      end = true) prev
  | None => []
  end.

Definition disjointFrom (S l : list ID) : bool :=
  forallb (fun c => negb (bool_decide (c ∈ S))) l.

(** The keys of the rendered children recorded in [d]. *)
Definition childKeysOf (d : InternalData) : list ID :=
  match renderedChildrenOf d with
  | Some children => children.*1
  | None => []
  end.

Definition childKeys (w : World) (c : ID) : list ID :=
  match heap w !! c with
  | Some d => childKeysOf d
  | None => []
  end.

(** From [w] to [w'] the components of [S] stayed as they were mounted, no
    hook was invoked on them, and [that] kept the children it had recorded. *)
Definition kept (S : list ID) (that : ID) (w w' : World) : Prop :=
  (forall s, s ∈ S -> mountState <$> heap w' !! s = mountState <$> heap w !! s)
  /\ childKeys w that ⊆ childKeys w' that
  /\ traceGrows (fun ev => eventComponent ev ∉ S) w w'.

(** Nothing happened to the components of [S]: their data is the same and
    no hook was invoked on them; the pass state is the same. *)
Definition sparing (S : list ID) (w w' : World) : Prop :=
  (forall s, s ∈ S -> heap w' !! s = heap w !! s)
  /\ traceGrows (fun ev => eventComponent ev ∉ S) w w'
  /\ renderStack w' = renderStack w
  /\ renderState w' = renderState w.


(** The root of the failing scenario has entered render. *)
Definition failingStart (cls : ID -> Class) : World :=
  let w := w_set_renderState (mkRenderState true false false 0 0 0 0) (failingWorld cls) in
  worldOf (_enterRender cls 5 1 None w) w.

Definition failingBegun (cls : ID -> Class) : option (Outcome (option Children * bool) * World) :=
  performRender_begin cls testClock 1 false (failingStart cls).

Definition failingThrown (cls : ID -> Class) : World :=
  worldOf (_doRender cls 5 (exec cls testClock 5) 1 VUndef
                     (worldOf (failingBegun cls) (failingStart cls)))
          (worldOf (failingBegun cls) (failingStart cls)).

Definition failingRender (cls : ID -> Class) : option (Outcome Val * World) :=
  _render cls testClock 5 (exec cls testClock 5) 10 1 VUndef None false false (failingStart cls).

(** The failing parent with the error hook of the base class, which throws
    the error it is given. *)
Definition Rethrowing : Class :=
  override_doRender (fun _ _ => PRender 2 VUndef noOptions (fun _ => PThrow failure)) Component.

Definition rethrowingClasses (c : ID) : Class :=
  match c with
  | 1 => Rethrowing
  | _ => Plain
  end.

(** ** A render that is still current *)

(** The last render of root [that] with [arg] is still current in [w]: the
    component [d] is a mounted root, prepared, free of errors and of
    interrupted work, it was last given the same context, its hooks ask
    neither for a new preparation nor for a fresh render nor for an
    interrupt, and the entry [e] its render cache holds for [arg] is the one
    in use, with the children the component has now. *)
Record current (cls : ID -> Class) (that : ID) (arg : Val) (options : RenderOptions)
       (w : World) (d : InternalData) (e : CacheEntry) : Prop := {
  cur_component : heap w !! that = Some d;
  cur_uninterrupted : nget (interruptedComponents w) (_id d) = None;
  cur_root : _renderParent d = None;
  cur_mounted : hasFlag (flags d) FLAG_MOUNTED = true;
  cur_prepared : hasFlag (flags d) FLAG_PREPARED = true;
  cur_prepare_settled : _prepare d = None;
  cur_context :
    match _context d with
    | Some prev => Context.same (default emptyContext (opt_context options)) prev
    | None => false
    end = true;
  cur_no_error :
    truthy (match uncommonData d with
            | Some u => renderError u
            | None => VNull
            end) = false;
  cur_no_interrupt : forall generation time components,
      shouldInterruptRender (cls that) (state d) generation time components = false;
  cur_no_prepare :
    shouldPrepare (cls that) (state d) (default [] (_changedAttributesSincePrepare d)) = false;
  cur_entry : reusableEntry cls that (contextNamesByKey w) d arg = Some e;
  cur_in_use : _currentlyUsedCache d = Some (ce_uid e);
  cur_children : renderedChildrenOf d = ce_children e;
  cur_result : strict_eq (ce_result e) VInterrupt = false
}.


(** The toggling parent after one pass with argument [0], and the entry its
    render cache holds for that argument. *)
Definition toggleRendered : World :=
  finalWorld [renderRootCall toggleClasses 1 (VNum 0)] toggleWorld.

Definition toggleRoot : InternalData :=
  default (newInternalData toggleClasses 1) (heap toggleRendered !! 1).

Definition toggleEntry : CacheEntry :=
  default (mkCacheEntry 0 VUndef 0 None None [] 0)
          (reusableEntry toggleClasses 1 (contextNamesByKey toggleRendered) toggleRoot (VNum 0)).

(** ** Context attributes a component does not use *)

(** No key recorded in the bit field [used] is the key of attribute [k]. *)
Definition keyUnused (names : list string) (used : list Z) (k : string) : bool :=
  negb (anyUsedAttribute names used (String.eqb k)).

(** Two contexts with the same value for every attribute other than [k]. *)
Definition agreeExcept (k : string) (a b : Context.t) : Prop :=
  forall name, name <> k -> Context.attr a name = Context.attr b name.

(** What the prepare cache and the render cache of a component hold. *)
Definition cachesOf (d : InternalData)
  : option nat * bool * Val * RenderCache * option nat :=
  (_prepare d, hasFlag (flags d) FLAG_PREPARED, _prepareResult d, _renderCache d,
   _currentlyUsedCache d).

(** Everything in a component but its children record. *)
Definition allButChildren (d : InternalData) :=
  (flags d, _id d, state d, _changedAttributesSincePrepare d, _context d, _boundContext d,
   _currentlyUsedCache d, _prepare d, _prepareResult d, _renderCache d, _renderParent d,
   _renderResult d, _usedContextAttributes d, _pendingRender d, _pendingCompleteRender d,
   uncommonData d).

(** The events of the lifecycle hooks and of [onCachedRender]: none of the
    render hooks. *)
Definition isLifecycle (ev : Event) : Prop :=
  match ev with
  | EvAppear _ | EvMount _ | EvUnmount _ | EvDisappear _ | EvReceiveContext _ _
  | EvCachedRender _ _ => True
  | _ => False
  end.

Local Open Scope string_scope.

(** ** A parent that hands its [theme] down in the context

    The child reads the attribute [locale] only. *)
Definition themeLiteral (theme : Val) : Val :=
  VObj (match theme with VNum n => 300 + Z.to_nat n | _ => 300 end)
       [("theme", theme); ("locale", VStr "en")].

Definition Provider : Class :=
  override_getPrepareContextModifications
    (fun st => themeLiteral (default VUndef (sget st "theme")))
    (override_defaults [("theme", VNum 1)]
       (override_doRender (fun _ _ => PRender 2 VUndef noOptions PRet) Component)).

Definition LocaleReader : Class :=
  override_doRender (fun _ _ => PContextGet "locale" PRet) Component.

Definition ThemeReader : Class :=
  override_doRender (fun _ _ => PContextGet "theme" PRet) Component.

Definition providerClasses (c : ID) : Class :=
  match c with
  | 1 => Provider
  | _ => LocaleReader
  end.

Definition themedClasses (c : ID) : Class :=
  match c with
  | 1 => Provider
  | _ => ThemeReader
  end.

Definition providerWorld (cls : ID -> Class) : World := construct cls [1; 2] emptyWorld.

Definition themeChange (cls : ID -> Class) : list (M Val) :=
  [renderRootCall cls 1 VUndef; setStateCall cls 1 [("theme", VNum 2)]; renderRootCall cls 1 VUndef].


(** The second pass has reached the child: its parent, whose [theme] has
    changed, is on the render stack. *)
Definition providerMidPass : World :=
  let w := finalWorld [renderRootCall providerClasses 1 VUndef;
                       setStateCall providerClasses 1 [("theme", VNum 2)]]
                      (providerWorld providerClasses) in
  w_set_renderStack [1] (w_set_renderState (rs_set_isRendering true (renderState w)) w).

Definition providerChild : InternalData :=
  default (newInternalData providerClasses 2) (heap providerMidPass !! 2).

Definition providerPrevious : Context.t := default emptyContext (_context providerChild).

Definition providerAfter : World :=
  worldOf (_updateContext providerClasses 2 (Some 1) None providerMidPass) providerMidPass.

Local Close Scope string_scope.

(** ** Further situations *)

Local Open Scope string_scope.

(** A scan cache of capacity two holding the keys [a] and [b]. *)
Definition fullScanCache : Cache.t nat :=
  Cache.setEntry
    (Cache.setEntry (Cache.create 2 (sameShallow sameValueZero)) (VStr "a") 1)
    (VStr "b") 2.

(** The first child of the interrupting pair is about to be rendered in a
    pass of root [1] that has not been interrupted yet. *)
Definition uninterruptedPassWorld : World :=
  w_set_renderStack [1]
    (w_set_renderState (mkRenderState true false false 0 0 0 0) (pairWorld interruptClasses)).

Definition interruptBegun : option (Outcome (option Children * bool) * World) :=
  performRender_begin interruptClasses testClock 2 false uninterruptedPassWorld.

Definition toggleAgain : option (Outcome Val * World) :=
  _doRender toggleClasses 20 (exec toggleClasses testClock 20) 1 (VNum 0) toggleRendered.

Local Close Scope string_scope.
(** * Properties *)

(** ** The bit field of phase and flags *)

Lemma testbit_bit k n : (0 <= k)%Z -> (0 <= n)%Z -> Z.testbit (Z.shiftl 1 k) n = (n =? k)%Z.
Proof.
  intros Hk Hn. rewrite Z.shiftl_spec by lia.
  destruct (Z.eqb_spec n k) as [->|Hne].
  - rewrite Z.sub_diag. reflexivity.
  - destruct (Z.ltb_spec n k).
    + apply Z.testbit_neg_r. lia.
    + change 1%Z with (Z.ones 1). apply Z.ones_spec_high. lia.
Qed.

Lemma hasFlag_testbit f k : (0 <= k)%Z -> hasFlag f (Z.shiftl 1 k) = Z.testbit f k.
Proof.
  intros Hk. unfold hasFlag.
  destruct (Z.testbit f k) eqn:E.
  - apply negb_true_iff, Z.eqb_neq. intros H0.
    assert (Z.testbit (Z.land f (Z.shiftl 1 k)) k = false) as H by (rewrite H0; apply Z.bits_0).
    rewrite Z.land_spec, E, testbit_bit, Z.eqb_refl in H by lia. discriminate.
  - apply negb_false_iff, Z.eqb_eq. apply Z.bits_inj'. intros n Hn.
    rewrite Z.land_spec, Z.bits_0, testbit_bit by lia.
    destruct (Z.eqb_spec n k) as [->|]; [rewrite E|]; auto using andb_false_r.
Qed.

Lemma hasFlag_addFlag_same f k : (0 <= k)%Z -> hasFlag (addFlag f (Z.shiftl 1 k)) (Z.shiftl 1 k) = true.
Proof. intros. rewrite hasFlag_testbit by lia. unfold addFlag. rewrite Z.lor_spec, testbit_bit, Z.eqb_refl by lia. apply orb_true_r. Qed.

Lemma hasFlag_addFlag_other f j k : (0 <= k)%Z -> (0 <= j)%Z -> j <> k ->
  hasFlag (addFlag f (Z.shiftl 1 j)) (Z.shiftl 1 k) = hasFlag f (Z.shiftl 1 k).
Proof. intros. rewrite !hasFlag_testbit by lia. unfold addFlag. rewrite Z.lor_spec, testbit_bit by lia.
  destruct (Z.eqb_spec k j); [lia|]. apply orb_false_r. Qed.

Lemma hasFlag_clearFlag_same f k : (0 <= k)%Z -> hasFlag (clearFlag f (Z.shiftl 1 k)) (Z.shiftl 1 k) = false.
Proof. intros. rewrite hasFlag_testbit by lia. unfold clearFlag. rewrite Z.land_spec, Z.lnot_spec, testbit_bit, Z.eqb_refl by lia. apply andb_false_r. Qed.

Lemma hasFlag_clearFlag_other f j k : (0 <= k)%Z -> (0 <= j)%Z -> j <> k ->
  hasFlag (clearFlag f (Z.shiftl 1 j)) (Z.shiftl 1 k) = hasFlag f (Z.shiftl 1 k).
Proof. intros. rewrite !hasFlag_testbit by lia. unfold clearFlag. rewrite Z.land_spec, Z.lnot_spec, testbit_bit by lia.
  destruct (Z.eqb_spec k j); [lia|]. apply andb_true_r. Qed.

Lemma testbit_small p n : (0 <= p < 8)%Z -> (3 <= n)%Z -> Z.testbit p n = false.
Proof.
  intros Hp Hn. 
  assert (p = 0 \/ p = 1 \/ p = 2 \/ p = 3 \/ p = 4 \/ p = 5 \/ p = 6 \/ p = 7)%Z as Hc by lia.
  replace n with ((n - 3) + 3)%Z by lia.
  rewrite <- Z.shiftr_spec by lia.
  destruct Hc as [->|[->|[->|[->|[->|[->|[->| ->]]]]]]]; simpl; apply Z.bits_0.
Qed.

Lemma hasFlag_setPhaseFlags f p k : (0 <= p < 8)%Z -> (3 <= k)%Z ->
  hasFlag (setPhaseFlags f p) (Z.shiftl 1 k) = hasFlag f (Z.shiftl 1 k).
Proof.
  intros. rewrite !hasFlag_testbit by lia. unfold setPhaseFlags.
  rewrite Z.lor_spec, Z.land_spec, Z.lnot_spec by lia.
  rewrite (testbit_small p k) by lia. rewrite (testbit_small MASK_PHASE k) by (unfold MASK_PHASE; lia).
  simpl. rewrite orb_false_r, andb_true_r. reflexivity.
Qed.

Lemma phaseOf_setPhaseFlags f p : (0 <= p < 8)%Z -> phaseOf (setPhaseFlags f p) = p.
Proof.
  intros H. unfold phaseOf, setPhaseFlags, MASK_PHASE.
  rewrite Z.land_lor_distr_l, <- Z.land_assoc.
  change (Z.land (Z.lnot 7) 7) with 0%Z. rewrite Z.land_0_r, Z.lor_0_l.
  change 7%Z with (Z.ones 3). rewrite Z.land_ones by lia. apply Z.mod_small. simpl. lia.
Qed.

Lemma phaseOf_addFlag f k : (3 <= k)%Z -> phaseOf (addFlag f (Z.shiftl 1 k)) = phaseOf f.
Proof.
  intros H. unfold phaseOf, addFlag, MASK_PHASE. apply Z.bits_inj'. intros n Hn.
  rewrite !Z.land_spec, Z.lor_spec, testbit_bit by lia.
  destruct (Z.eqb_spec n k) as [->|]; [|rewrite orb_false_r; reflexivity].
  rewrite (testbit_small 7 k) by lia. rewrite !andb_false_r. reflexivity.
Qed.

Lemma phaseOf_clearFlag f k : (3 <= k)%Z -> phaseOf (clearFlag f (Z.shiftl 1 k)) = phaseOf f.
Proof.
  intros H. unfold phaseOf, clearFlag, MASK_PHASE. apply Z.bits_inj'. intros n Hn.
  rewrite !Z.land_spec, Z.lnot_spec, testbit_bit by lia.
  destruct (Z.eqb_spec n k) as [->|]; [|rewrite andb_true_r; reflexivity].
  rewrite (testbit_small 7 k) by lia. rewrite !andb_false_r. reflexivity.
Qed.

(** ** Reasoning about the monad *)

Lemma bind_inv {A B} (m : M A) (k : A -> M B) w r w' :
  bind m k w = Some (r, w') ->
  (exists a w1, m w = Some (Ok a, w1) /\ k a w1 = Some (r, w'))
  \/ (exists e, m w = Some (Thrown e, w') /\ r = Thrown e).
Proof.
  unfold bind. destruct (m w) as [[[a|e] w1]|] eqn:E; intros H.
  - left. eauto.
  - right. inversion H; subst. eauto.
  - discriminate.
Qed.

Lemma bind_ok {A B} (m : M A) (k : A -> M B) w a w1 :
  m w = Some (Ok a, w1) -> bind m k w = k a w1.
Proof. unfold bind. intros ->. reflexivity. Qed.

Lemma bind_thrown {A B} (m : M A) (k : A -> M B) w e w1 :
  m w = Some (Thrown e, w1) -> bind m k w = Some (Thrown e, w1).
Proof. unfold bind. intros ->. reflexivity. Qed.

Lemma getData_inv c w r w' :
  getData c w = Some (r, w') -> exists d, heap w !! c = Some d /\ r = Ok d /\ w' = w.
Proof.
  unfold getData. destruct (heap w !! c) as [d|]; intros H; inversion H; subst; eauto.
Qed.

Lemma getData_ok c w d : heap w !! c = Some d -> getData c w = Some (Ok d, w).
Proof. unfold getData. intros ->. reflexivity. Qed.

Lemma modData_inv c f w r w' :
  modData c f w = Some (r, w') ->
  exists d, heap w !! c = Some d /\ r = Ok tt /\ w' = w_set_heap (<[c := f d]> (heap w)) w.
Proof.
  unfold modData. destruct (heap w !! c) as [d|]; intros H; inversion H; subst; eauto.
Qed.

Lemma modData_ok c f w d :
  heap w !! c = Some d ->
  modData c f w = Some (Ok tt, w_set_heap (<[c := f d]> (heap w)) w).
Proof. unfold modData. intros ->. reflexivity. Qed.

Lemma preserves_ret {A X} (f : World -> X) (a : A) : preserves f (ret a).
Proof. intros w r w' H. inversion H; reflexivity. Qed.

Lemma preserves_throw {A X} (f : World -> X) e : preserves f (@throw A e).
Proof. intros w r w' H. inversion H; reflexivity. Qed.

Lemma preserves_stuck {A X} (f : World -> X) : preserves f (@stuck A).
Proof. intros w r w' H. discriminate. Qed.

Lemma preserves_bind {A B X} (f : World -> X) (m : M A) (k : A -> M B) :
  preserves f m -> (forall a, preserves f (k a)) -> preserves f (bind m k).
Proof.
  intros Hm Hk w r w' H. apply bind_inv in H as [(a & w1 & H1 & H2)|(e & H1 & _)].
  - rewrite (Hk a _ _ _ H2). eauto.
  - eauto.
Qed.

Lemma preserves_when {X} (f : World -> X) b (m : M unit) :
  preserves f m -> preserves f (when b m).
Proof. destruct b; simpl; auto using preserves_ret. Qed.

Lemma preserves_forEach {A X} (f : World -> X) (l : list A) (g : A -> M unit) :
  (forall x, preserves f (g x)) -> preserves f (forEach l g).
Proof.
  intros Hg. induction l as [|x l IH]; simpl.
  - apply preserves_ret.
  - apply preserves_bind; auto.
Qed.

Lemma preserves_getData {X} (f : World -> X) c : preserves f (getData c).
Proof. intros w r w' H. apply getData_inv in H as (d & _ & _ & ->). reflexivity. Qed.

Lemma preserves_gets {A X} (f : World -> X) (g : World -> A) : preserves f (gets g).
Proof. intros w r w' H. inversion H; reflexivity. Qed.

Lemma preserves_pass_modData c g : preserves passState (modData c g).
Proof. intros w r w' H. apply modData_inv in H as (d & _ & _ & ->). reflexivity. Qed.

Lemma preserves_pass_rerenderChain fuel :
  forall that inv, preserves passState (rerenderChain fuel that inv).
Proof.
  induction fuel as [|n IH]; intros that inv; simpl.
  - apply preserves_stuck.
  - repeat (apply preserves_bind; [|intros ?]);
      try apply preserves_when; try apply preserves_pass_modData;
      try apply preserves_getData.
    destruct (_ && _); [apply preserves_ret|].
    apply preserves_bind; [apply preserves_pass_modData|intros _].
    destruct (_renderParent _); [|apply preserves_ret].
    apply preserves_bind; [apply preserves_getData|intros ?]. apply IH.
Qed.

Lemma preserves_pass_rerenderInterrupted fuel rootId :
  preserves passState (_rerenderInterrupted fuel rootId).
Proof.
  unfold _rerenderInterrupted.
  apply preserves_bind; [apply preserves_gets|intros items].
  destruct (nget items rootId); [|apply preserves_ret].
  apply preserves_bind.
  - apply preserves_forEach. intros x. apply preserves_pass_rerenderChain.
  - intros _ w r w' H. inversion H; reflexivity.
Qed.

Lemma modify_inv f w r w' : modify f w = Some (r, w') -> r = Ok tt /\ w' = f w.
Proof. intros H. inversion H; auto. Qed.

Lemma gets_inv {A} (g : World -> A) w r w' :
  gets g w = Some (r, w') -> r = Ok (g w) /\ w' = w.
Proof. intros H. inversion H; auto. Qed.

Lemma tryCatch_inv {A} (m : M A) w r w' :
  tryCatch m w = Some (r, w') -> exists o, m w = Some (o, w') /\ r = Ok o.
Proof.
  unfold tryCatch. destruct (m w) as [[o w1]|]; intros H; inversion H; subst; eauto.
Qed.

(** Splits a hypothesis [H : bind m k w = Some (r, w')] into the run of [m]
    (named [H1]) and the rest (kept as [H]); the branch where [m] throws is
    left as a second goal. *)
Ltac bind_split H H1 :=
  let a := fresh "a" in
  let w1 := fresh "w" in
  let e := fresh "e" in
  apply bind_inv in H as [(a & w1 & H1 & H)|(e & H1 & ?)]; [cbn beta in H|].

(** Inverts the run of a primitive that cannot throw. *)
Ltac prim_inv H :=
  let d := fresh "d" in
  let Hd := fresh "Hheap" in
  let Hr := fresh "Hres" in
  let Hw := fresh "Hworld" in
  first
    [ apply getData_inv in H as (d & Hd & Hr & Hw)
    | apply modData_inv in H as (d & Hd & Hr & Hw)
    | apply modify_inv in H as (Hr & Hw)
    | apply gets_inv in H as (Hr & Hw)
    | apply tryCatch_inv in H as (d & Hd & Hr) ];
  simplify_eq.

Lemma renderRoot_finally_inv that oldState w r w' :
  renderRoot_finally that oldState w = Some (r, w') ->
  r = Ok tt /\ passState w' = oldState.
Proof.
  unfold renderRoot_finally, restoreState, modRenderState. intros H.
  bind_split H H1; [|prim_inv H1]. prim_inv H1.
  bind_split H H1; [|prim_inv H1]. prim_inv H1.
  bind_split H H1; [|prim_inv H1]. prim_inv H1.
  bind_split H H1; [|prim_inv H1]. prim_inv H1.
  prim_inv H. split; [reflexivity|]. destruct oldState; reflexivity.
Qed.

Section PassState.

Variable cls : ID -> Class.
Variable clock : nat -> Z.
Variable gas : nat.
Variable rec : Call -> M Val.

(** C9. Whatever happens inside, a call of [renderRoot] that finishes,
    by returning or by throwing, leaves the engine-internal render state
    ([isRendering], the interrupt flags and counters, the component counts,
    the start time) and the render stack exactly as it found them; this
    holds for every behaviour [rec] of the hooks below, so also for a root
    rendered from within another root's pass. *)
Theorem renderRoot_restores_pass_state that arg options w r w' :
  renderRoot cls clock gas rec that arg options w = Some (r, w') ->
  renderState w' = renderState w /\ renderStack w' = renderStack w.
Proof.
  intros H.
  cut (passState w' = passState w). { intros E. inversion E. auto. }
  unfold renderRoot in H.
  bind_split H H1; [|prim_inv H1]. prim_inv H1.
  bind_split H H1.
  2:{ eapply preserves_pass_rerenderInterrupted; eauto. }
  apply preserves_pass_rerenderInterrupted in H1. rewrite <- H1. clear H1.
  bind_split H H1; [|inversion H1]. inversion H1; subst; clear H1.
  unfold modRenderState in H.
  bind_split H H1; [|prim_inv H1]. prim_inv H1.
  bind_split H H1; [|prim_inv H1]. prim_inv H1.
  bind_split H H1; [|prim_inv H1]. prim_inv H1.
  bind_split H H1; [|prim_inv H1]. prim_inv H1.
  bind_split H H1; [|prim_inv H1]. prim_inv H1.
  bind_split H H1; [|prim_inv H1]. prim_inv H1.
  bind_split H H1; [|prim_inv H1]. prim_inv H1.
  bind_split H H1; [|inversion H1]. inversion H1; subst; clear H1.
  bind_split H H1; [|prim_inv H1]. prim_inv H1.
  bind_split H H1; [|prim_inv H1]. prim_inv H1.
  bind_split H H1.
  - apply renderRoot_finally_inv in H1 as [_ E].
    match type of H with match ?o with _ => _ end _ = _ => destruct o end;
      inversion H; subst; exact E.
  - apply renderRoot_finally_inv in H1 as [? _]. discriminate.
Qed.

End PassState.

(** ** The caches *)

Section CacheFacts.

Context {V : Type}.

Lemma findFrom_bounds (cmp : Val -> Val -> bool) key (es : list (Val * V)) i :
  Cache.findFrom cmp key es i = (-1)%Z
  \/ (i <= Cache.findFrom cmp key es i < i + Z.of_nat (length es))%Z.
Proof.
  revert i. induction es as [|e es IH]; intros i; simpl; [auto|].
  destruct (cmp key e.1); [right; lia|].
  destruct (IH (i + 1)%Z) as [->|?]; [auto|right; lia].
Qed.

(** Scan cache, existing key: the entry is updated where it stands; keys,
    their order and the number of entries are untouched. *)
Lemma scan_setEntry_existing (c : Cache.t V) key value :
  (0 <= Cache._findEntry c key)%Z ->
  (Cache.entries (Cache.setEntry c key value)).*1 = (Cache.entries c).*1
  /\ Cache.getEntry (Cache.setEntry c key value) key = Some value.
Proof.
  intros Hfound. unfold Cache.setEntry.
  destruct (Z.leb_spec 0 (Cache._findEntry c key)); [|lia]. simpl.
  unfold Cache._findEntry in *.
  destruct c as [es size cmp]; simpl in *.
  assert (forall i, (0 <= i)%Z -> (0 <= Cache.findFrom cmp key es i)%Z ->
            (Cache.setValueAt es (Z.to_nat (Cache.findFrom cmp key es i - i)) value).*1 = es.*1
            /\ Cache.findFrom cmp key
                 (Cache.setValueAt es (Z.to_nat (Cache.findFrom cmp key es i - i)) value) i
               = Cache.findFrom cmp key es i
            /\ snd <$> (Cache.setValueAt es (Z.to_nat (Cache.findFrom cmp key es i - i)) value
                        !! Z.to_nat (Cache.findFrom cmp key es i - i)) = Some value) as Hgen.
  { clear. induction es as [|e es IH]; intros i Hi0 Hi; simpl in *; [lia|].
    destruct (cmp key e.1) eqn:E.
    - rewrite Z.sub_diag. simpl. unfold Cache.setValueAt. simpl. rewrite E. auto.
    - destruct (findFrom_bounds cmp key es (i + 1)) as [Hm|Hb]; [rewrite Hm in Hi; lia|].
      replace (Z.to_nat (Cache.findFrom cmp key es (i + 1) - i))
        with (S (Z.to_nat (Cache.findFrom cmp key es (i + 1) - (i + 1)))) by lia.
      destruct (IH (i + 1)%Z) as (IH1 & IH2 & IH3); [lia|lia|].
      unfold Cache.setValueAt in *. simpl.
      destruct (es !! _) as [e'|] eqn:El; simpl in *.
      + rewrite E. repeat split; [f_equal; exact IH1|exact IH2|exact IH3].
      + rewrite El in IH3. discriminate. }
  destruct (Hgen 0%Z) as (H1 & H2 & H3); [lia|lia|].
  rewrite Z.sub_0_r in *. split; [exact H1|].
  unfold Cache.getEntry, Cache._findEntry. simpl. rewrite H2.
  destruct (Z.leb_spec 0 (Cache.findFrom cmp key es 0)); [exact H3|lia].
Qed.

(** Scan cache, new key, positive capacity: the entry goes to the front and
    the cache is cut back to its capacity by dropping its last entry. *)
Lemma scan_setEntry_new (c : Cache.t V) key value :
  Cache._findEntry c key = (-1)%Z ->
  (0 < Cache.maxSize c)%Z ->
  Cache.entries (Cache.setEntry c key value) =
    if (Cache.maxSize c <? Z.of_nat (S (length (Cache.entries c))))%Z
    then removelast ((key, value) :: Cache.entries c)
    else (key, value) :: Cache.entries c.
Proof.
  intros Hnew Hsize. unfold Cache.setEntry, Cache.getMaxSize. rewrite Hnew. simpl.
  destruct (Z.eqb_spec (Cache.maxSize c) 0); [lia|]. simpl negb. cbv iota.
  destruct (Z.leb_spec 0 (Cache.maxSize c)); [|lia]. simpl.
  reflexivity.
Qed.

End CacheFacts.


(** The scan cache in the same situation keeps both entries. *)
Lemma scan_setEntry_existing_key_keeps :
  let c := Cache.setEntry
             (Cache.setEntry (Cache.create 2 (sameShallow sameValueZero)) (VStr "a") 1)
             (VStr "b") 2 in
  Cache.getEntry (Cache.setEntry c (VStr "a") 3) (VStr "a") = Some 3
  /\ Cache.getEntry (Cache.setEntry c (VStr "a") 3) (VStr "b") = Some 2.
Proof. vm_compute. split; reflexivity. Qed.

(** ** Contexts *)

Lemma changedAttrs_from_Some attrs mods acc :
  exists attrs',
    fold_left
      (fun (newAttrs : option (list (string * Val))) (kv : string * Val) =>
         if negb (strict_eq kv.2 (default VUndef (sget attrs kv.1)))
         then Some (sset (default attrs newAttrs) kv.1 kv.2)
         else newAttrs)
      mods (Some acc) = Some attrs'.
Proof.
  revert acc. induction mods as [|kv mods IH]; intros acc; simpl; [eauto|].
  destruct (negb _); apply IH.
Qed.

Lemma changedAttrs_spec attrs mods :
  if forallb (fun kv : string * Val => strict_eq kv.2 (default VUndef (sget attrs kv.1))) mods
  then Context.changedAttrs attrs mods = None
  else exists attrs', Context.changedAttrs attrs mods = Some attrs'.
Proof.
  unfold Context.changedAttrs.
  induction mods as [|kv mods IH]; simpl; [reflexivity|].
  destruct (strict_eq kv.2 _) eqn:E; simpl.
  - exact IH.
  - apply changedAttrs_from_Some.
Qed.


Lemma context_reuse_examples :
  Context.change sampleContext (VObj 1 [("key"%string, VNum 1)]) 6 = (sampleContext, 6)
  /\ Context.change sampleContext (VObj 1 [("key"%string, VNum 2)]) 6
     = (Context.mk 6 [("key"%string, VNum 2)], 7)
  /\ Context.change sampleContext (VObj 1 [("other"%string, VUndef)]) 6 = (sampleContext, 6)
  /\ (applyModificationsCached Context.sameValue sampleContext
        (VObj 2 [("key"%string, VNum 2)])
        (applyModificationsCached Context.sameValue sampleContext
           (VObj 1 [("key"%string, VNum 2)]) emptyModCache 6).1.2 7).1.1
     = Context.mk 6 [("key"%string, VNum 2)].
Proof. vm_compute. repeat split. Qed.

(** ** State changes *)

Section SetState.

Variable cls : ID -> Class.
Variable gas : nat.

Lemma setStateStep_same that acc kv w d :
  heap w !! that = Some d ->
  sameValueZero (default VUndef (sget (state d) kv.1)) kv.2 None = true ->
  setStateStep cls that acc kv w = Some (Ok acc, w).
Proof.
  intros Hd Hsame. unfold setStateStep. destruct kv as [name value]. simpl in *.
  rewrite (bind_ok _ _ _ _ _ (getData_ok _ _ _ Hd)).
  unfold sameValueZero in Hsame.
  destruct (strict_eq _ value); simpl in *; [reflexivity|].
  rewrite Hsame. reflexivity.
Qed.

Lemma setStateLoop_same that values : forall acc w d,
  heap w !! that = Some d ->
  allSameValueZero (state d) values = true ->
  setStateLoop cls that values acc w = Some (Ok acc, w).
Proof.
  induction values as [|kv values IH]; intros acc w d Hd Hall; simpl in *; [reflexivity|].
  apply andb_true_iff in Hall as [Hkv Hrest].
  rewrite (bind_ok _ _ _ _ _ (setStateStep_same _ _ _ _ _ Hd Hkv)). eauto.
Qed.

(** C10. A [setState] call whose every value equals the current one under
    same-value-zero returns leaving the whole world as it was: the state
    record, the trace (so no [onChange] listener and no state waiter ran),
    the record of attributes changed since prepare, the caches, and the
    scheduled render requests. *)
Theorem setState_same_values_is_noop that values w d :
  heap w !! that = Some d ->
  allSameValueZero (state d) values = true ->
  _setState cls gas that values w = Some (Ok tt, w).
Proof.
  intros Hd Hall. unfold _setState.
  rewrite (bind_ok _ _ _ _ _ (setStateLoop_same _ _ _ _ _ Hd Hall)). reflexivity.
Qed.

End SetState.

Lemma setState_same_values_witness :
  (exists d, heap watchedWorld !! 1 = Some d /\ allSameValueZero (state d) sameValues = true)
  /\ _setState watchedClasses 0 1 sameValues watchedWorld = Some (Ok tt, watchedWorld).
Proof.
  assert (exists d, heap watchedWorld !! 1 = Some d
                    /\ allSameValueZero (state d) sameValues = true) as H.
  { eexists. split; [vm_compute; reflexivity|vm_compute; reflexivity]. }
  split; [exact H|].
  destruct H as (d & Hd & Hall).
  exact (setState_same_values_is_noop watchedClasses 0 1 sameValues watchedWorld d Hd Hall).
Defined.

(** The same call with one value that differs does all of it. *)
Lemma setState_changed_value_example :
  traceOf [setStateCall watchedClasses 1 [("count"%string, VNum 2)]] watchedWorld
  = trace watchedWorld ++ [EvChange 1 "count" (VNum 2) (VNum 1); EvWaiterResolved 1 7].
Proof. vm_compute. reflexivity. Qed.

Lemma renderRoot_restores_pass_state_witness :
  innerPass midPassWorld = Some (Ok (VNum 9), afterInnerPass)
  /\ renderState afterInnerPass = renderState midPassWorld
  /\ renderStack afterInnerPass = renderStack midPassWorld.
Proof.
  assert (innerPass midPassWorld = Some (Ok (VNum 9), afterInnerPass)) as E
      by (vm_compute; reflexivity).
  split; [exact E|].
  exact (renderRoot_restores_pass_state nestingClasses testClock 5
           (exec nestingClasses testClock 5) 2 (VNum 9) noOptions midPassWorld
           (Ok (VNum 9)) afterInnerPass E).
Defined.

(** The whole outer pass, with the inner pass nested in it, ends with the
    outer root's own count of rendered components. *)
Lemma nested_pass_example :
  outcomesOf [renderRootCall nestingClasses 1 (VNum 9)] nestingWorld = Some [Ok (VNum 9)]
  /\ (componentCount ∘ theRootData <$>
        heap (finalWorld [renderRootCall nestingClasses 1 (VNum 9)] nestingWorld) !! 1)
     = Some 1%Z.
Proof. vm_compute. split; reflexivity. Qed.

(** ** Framing: what a computation leaves alone *)

Section Frames.
Context (R : World -> World -> Prop).
Hypothesis R_refl : forall w, R w w.
Hypothesis R_trans : forall w1 w2 w3, R w1 w2 -> R w2 w3 -> R w1 w3.

Lemma frames_ret {A} (a : A) : frames R (ret a).
Proof. intros w r w' H. inversion H; subst. apply R_refl. Qed.

Lemma frames_throw {A} e : frames R (@throw A e).
Proof. intros w r w' H. inversion H; subst. apply R_refl. Qed.

Lemma frames_stuck {A} : frames R (@stuck A).
Proof. intros w r w' H. discriminate. Qed.

Lemma frames_bind {A B} (m : M A) (k : A -> M B) :
  frames R m -> (forall a, frames R (k a)) -> frames R (bind m k).
Proof.
  intros Hm Hk w r w' H. apply bind_inv in H as [(a & w1 & H1 & H2)|(e & H1 & _)].
  - eapply R_trans; [eapply Hm|eapply Hk]; eauto.
  - eapply Hm; eauto.
Qed.

Lemma frames_when b (m : M unit) : frames R m -> frames R (when b m).
Proof. destruct b; simpl; auto using frames_ret. Qed.

Lemma frames_forEach {A} (l : list A) (g : A -> M unit) :
  (forall x, frames R (g x)) -> frames R (forEach l g).
Proof.
  intros Hg. induction l as [|x l IH]; simpl; [apply frames_ret|].
  apply frames_bind; auto.
Qed.

Lemma frames_getData c : frames R (getData c).
Proof. intros w r w' H. apply getData_inv in H as (d & _ & _ & ->). apply R_refl. Qed.

Lemma frames_gets {A} (g : World -> A) : frames R (gets g).
Proof. intros w r w' H. inversion H; subst. apply R_refl. Qed.

Lemma frames_tryCatch {A} (m : M A) : frames R m -> frames R (tryCatch m).
Proof. intros Hm w r w' H. apply tryCatch_inv in H as (o & H & _). eauto. Qed.

Lemma frames_modData c f :
  (forall w d, heap w !! c = Some d -> R w (w_set_heap (<[c := f d]> (heap w)) w)) ->
  frames R (modData c f).
Proof. intros Hf w r w' H. apply modData_inv in H as (d & Hd & _ & ->). auto. Qed.

Lemma frames_modify f : (forall w, R w (f w)) -> frames R (modify f).
Proof. intros Hf w r w' H. inversion H; subst. apply Hf. Qed.

End Frames.

Lemma returns_ret {A} (a : A) : returns (ret a).
Proof. intros w r w' H. inversion H; eauto. Qed.

Lemma returns_bind {A B} (m : M A) (k : A -> M B) :
  returns m -> (forall a, returns (k a)) -> returns (bind m k).
Proof.
  intros Hm Hk w r w' H. apply bind_inv in H as [(a & w1 & H1 & H2)|(e & H1 & _)].
  - eapply Hk; eauto.
  - apply Hm in H1 as [? ?]. discriminate.
Qed.

Lemma returns_when b (m : M unit) : returns m -> returns (when b m).
Proof. destruct b; simpl; auto using returns_ret. Qed.

Lemma returns_getData c : returns (getData c).
Proof. intros w r w' H. apply getData_inv in H as (d & _ & -> & _). eauto. Qed.

Lemma returns_modData c f : returns (modData c f).
Proof. intros w r w' H. apply modData_inv in H as (d & _ & -> & _). eauto. Qed.

Lemma returns_gets {A} (g : World -> A) : returns (gets g).
Proof. intros w r w' H. inversion H; eauto. Qed.

Lemma returns_modify f : returns (modify f).
Proof. intros w r w' H. inversion H; eauto. Qed.

Lemma returns_forEach {A} (l : list A) (g : A -> M unit) :
  (forall x, returns (g x)) -> returns (forEach l g).
Proof.
  intros Hg. induction l as [|x l IH]; simpl; [apply returns_ret|].
  apply returns_bind; auto.
Qed.

Lemma heapAgree_refl {X} (π : InternalData -> X) w : heapAgree π w w.
Proof. intros c. reflexivity. Qed.

Lemma heapAgree_trans {X} (π : InternalData -> X) w1 w2 w3 :
  heapAgree π w1 w2 -> heapAgree π w2 w3 -> heapAgree π w1 w3.
Proof. intros H1 H2 c. rewrite H2. apply H1. Qed.

Lemma heapAgree_insert {X} (π : InternalData -> X) c f w d :
  π (f d) = π d -> heap w !! c = Some d ->
  heapAgree π w (w_set_heap (<[c := f d]> (heap w)) w).
Proof.
  intros Hf Hd c'. simpl. destruct (decide (c = c')) as [->|Hne].
  - rewrite lookup_insert_eq, Hd. simpl. rewrite Hf. reflexivity.
  - rewrite lookup_insert_ne by done. reflexivity.
Qed.

Lemma frames_heap_modData {X} (π : InternalData -> X) c f :
  (forall d, π (f d) = π d) -> frames (heapAgree π) (modData c f).
Proof.
  intros Hf. apply frames_modData. intros w d Hd. apply (heapAgree_insert π c f w d); auto.
Qed.

Lemma frames_heap_modify {X} (π : InternalData -> X) f :
  (forall w, heap (f w) = heap w) -> frames (heapAgree π) (modify f).
Proof. intros Hf. apply frames_modify. intros w c. rewrite Hf. reflexivity. Qed.

Lemma traceGrows_refl P w : traceGrows P w w.
Proof. exists []. rewrite app_nil_r. auto. Qed.

Lemma traceGrows_trans P w1 w2 w3 :
  traceGrows P w1 w2 -> traceGrows P w2 w3 -> traceGrows P w1 w3.
Proof.
  intros (e1 & H1 & F1) (e2 & H2 & F2). exists (e1 ++ e2).
  rewrite H2, H1, app_assoc. split; [reflexivity|]. apply Forall_app; auto.
Qed.

Lemma traceGrows_same P w w' : trace w' = trace w -> traceGrows P w w'.
Proof. intros H. exists []. rewrite app_nil_r. auto. Qed.

Lemma frames_trace_logEv (P : Event -> Prop) e : P e -> frames (traceGrows P) (logEv e).
Proof. intros HP w r w' H. inversion H; subst. exists [e]. simpl. auto. Qed.

Lemma frames_trace_modData P c f : frames (traceGrows P) (modData c f).
Proof. apply frames_modData. intros. apply traceGrows_same. reflexivity. Qed.

(** Solves [frames R m] and [returns m] goals for straight-line code made of
    binds, by the structure of [m]; leaves what it cannot decide. *)
Ltac frames_auto R_refl R_trans :=
  repeat first
    [ apply (frames_bind _ R_trans); [|intros ?]
    | apply (frames_ret _ R_refl)
    | apply (frames_getData _ R_refl)
    | apply (frames_gets _ R_refl)
    | apply (frames_when _ R_refl)
    | apply (frames_throw _ R_refl)
    | apply frames_stuck ].

Ltac returns_auto :=
  repeat first
    [ apply returns_bind; [|intros ?]
    | apply returns_ret
    | apply returns_getData
    | apply returns_modData
    | apply returns_gets
    | apply returns_modify
    | apply returns_when ].

Section Ctx.
Variable cls : ID -> Class.

Lemma getModifiedContext_returns that : returns (getModifiedContext cls that).
Proof.
  unfold getModifiedContext. returns_auto.
  destruct (applyModificationsCached _ _ _ _ _) as [[pc c1] f1]. returns_auto.
  destruct (negb _); returns_auto.
  destruct (applyModificationsCached _ _ _ _ _) as [[pc2 c2] f2]. returns_auto.
Qed.

Lemma getModifiedContext_trace P that : frames (traceGrows P) (getModifiedContext cls that).
Proof.
  unfold getModifiedContext.
  frames_auto (traceGrows_refl P) (traceGrows_trans P); try apply frames_trace_modData.
  destruct (applyModificationsCached _ _ _ _ _) as [[pc c1] f1].
  frames_auto (traceGrows_refl P) (traceGrows_trans P); try apply frames_trace_modData.
  { apply frames_modify. intros. apply traceGrows_same. reflexivity. }
  destruct (negb _); frames_auto (traceGrows_refl P) (traceGrows_trans P).
  destruct (applyModificationsCached _ _ _ _ _) as [[pc2 c2] f2].
  frames_auto (traceGrows_refl P) (traceGrows_trans P); try apply frames_trace_modData.
  apply frames_modify. intros. apply traceGrows_same. reflexivity.
Qed.

Lemma getModifiedContext_heap {X} (π : InternalData -> X) that :
  contextStable π -> frames (heapAgree π) (getModifiedContext cls that).
Proof.
  intros (S1 & S2 & S3 & S4 & S5). unfold getModifiedContext.
  assert (forall f, frames (heapAgree π) (modData that (modChildrenData f))) as Hmod.
  { intros f. apply frames_heap_modData. intros d. apply S5. }
  assert (forall f, frames (heapAgree π) (modify (w_set_nextObject f))) as Hnext.
  { intros f. apply frames_heap_modify. reflexivity. }
  frames_auto (heapAgree_refl π) (heapAgree_trans π).
  { apply frames_heap_modData. intros d.
    unfold ensureChildrenData. destruct (childrenData d); [reflexivity|apply S5]. }
  destruct (applyModificationsCached _ _ _ _ _) as [[pc c1] f1].
  frames_auto (heapAgree_refl π) (heapAgree_trans π); auto.
  destruct (negb _); frames_auto (heapAgree_refl π) (heapAgree_trans π).
  destruct (applyModificationsCached _ _ _ _ _) as [[pc2 c2] f2].
  frames_auto (heapAgree_refl π) (heapAgree_trans π); auto.
Qed.

Lemma updateContext_returns that parent given : returns (_updateContext cls that parent given).
Proof.
  unfold _updateContext, receivedContext. returns_auto.
  destruct given; [apply returns_ret|]. destruct parent; [|apply returns_ret].
  apply getModifiedContext_returns.
Qed.

Lemma updateContext_trace that parent given :
  frames (traceGrows (isReceiveContext that)) (_updateContext cls that parent given).
Proof.
  unfold _updateContext, receivedContext.
  set (P := isReceiveContext that).
  frames_auto (traceGrows_refl P) (traceGrows_trans P).
  { destruct given; [apply (frames_ret _ (traceGrows_refl P))|].
    destruct parent; [|apply (frames_ret _ (traceGrows_refl P))].
    apply getModifiedContext_trace. }
  all: try apply frames_trace_modData.
  apply frames_trace_logEv. eexists. reflexivity.
Qed.

Lemma updateContext_heap {X} (π : InternalData -> X) that parent given :
  contextStable π -> frames (heapAgree π) (_updateContext cls that parent given).
Proof.
  intros S. pose proof S as (S1 & S2 & S3 & S4 & S5). unfold _updateContext, receivedContext.
  frames_auto (heapAgree_refl π) (heapAgree_trans π).
  { destruct given as [g|].
    - apply (frames_ret _ (heapAgree_refl π)).
    - destruct parent as [p|].
      + apply getModifiedContext_heap, S.
      + apply (frames_ret _ (heapAgree_refl π)). }
  - apply frames_heap_modData. intros d. rewrite S2. apply S1.
  - apply frames_heap_modData, S3.
  - apply frames_heap_modData, S4.
  - apply frames_heap_modify. reflexivity.
Qed.

End Ctx.

Lemma bind_getData {B} c (k : InternalData -> M B) w d :
  heap w !! c = Some d -> bind (getData c) k w = k d w.
Proof. intros H. apply bind_ok, getData_ok, H. Qed.

Lemma bind_modData {B} c f (k : unit -> M B) w d :
  heap w !! c = Some d ->
  bind (modData c f) k w = k tt (w_set_heap (<[c := f d]> (heap w)) w).
Proof. intros H. apply bind_ok, modData_ok, H. Qed.

Lemma bind_gets {A B} (g : World -> A) (k : A -> M B) w : bind (gets g) k w = k (g w) w.
Proof. reflexivity. Qed.

Lemma bind_modify {B} f (k : unit -> M B) w : bind (modify f) k w = k tt (f w).
Proof. reflexivity. Qed.

Lemma bind_logEv {B} e (k : unit -> M B) w :
  bind (logEv e) k w = k tt (w_set_trace (trace w ++ [e]) w).
Proof. reflexivity. Qed.

Lemma bind_ret {A B} (a : A) (k : A -> M B) w : bind (ret a) k w = k a w.
Proof. reflexivity. Qed.

Lemma bind_assoc {A B C} (m : M A) (f : A -> M B) (g : B -> M C) w :
  bind (bind m f) g w = bind m (fun a => bind (f a) g) w.
Proof. unfold bind. destruct (m w) as [[[a|e] w1]|]; reflexivity. Qed.

(** Normalises updated worlds and component data: setters become
    constructors, projections of constructors are reduced. *)
Ltac wsimpl_in H :=
  unfold getCurrentRenderParent, getCurrentRenderRoot, setPhase,
    w_set_heap, w_set_renderStack, w_set_renderState, w_set_interruptedComponents,
    w_set_rerenderInterruptedTimeout, w_set_unmountedComponents,
    w_set_disappearHandlersTimeout, w_set_contextNamesByKey, w_set_promises,
    w_set_nextObject, w_set_ticks, w_set_trace,
    set_flags, set_id, set_state, set_changedAttributesSincePrepare, set_context,
    set_boundContext, set_currentlyUsedCache, set_prepare, set_prepareResult, set_renderCache,
    set_renderParent, set_renderResult, set_usedContextAttributes, set_childrenData,
    set_pendingRender, set_pendingCompleteRender, set_uncommonData,
    rs_set_isRendering, rs_set_isRenderInterrupted, rs_set_lastRenderWasInterrupted,
    rs_set_lastRenderComponentCount, rs_set_renderStartTime, rs_set_renderInterruptGeneration,
    rs_set_renderComponentCount in H;
  cbn [heap renderStack renderState interruptedComponents rerenderInterruptedTimeout
       unmountedComponents disappearHandlersTimeout contextNamesByKey promises nextObject
       ticks trace
       flags _id state _changedAttributesSincePrepare _context _boundContext
       _currentlyUsedCache _prepare _prepareResult _renderCache _renderParent _renderResult
       _usedContextAttributes childrenData _pendingRender _pendingCompleteRender uncommonData
       isRendering isRenderInterrupted lastRenderWasInterrupted lastRenderComponentCount
       renderStartTime renderInterruptGeneration renderComponentCount]
    in H;
  rewrite ?insert_insert_eq in H.

Ltac wsimpl :=
  unfold getCurrentRenderParent, getCurrentRenderRoot, setPhase,
    w_set_heap, w_set_renderStack, w_set_renderState, w_set_interruptedComponents,
    w_set_rerenderInterruptedTimeout, w_set_unmountedComponents,
    w_set_disappearHandlersTimeout, w_set_contextNamesByKey, w_set_promises,
    w_set_nextObject, w_set_ticks, w_set_trace,
    set_flags, set_id, set_state, set_changedAttributesSincePrepare, set_context,
    set_boundContext, set_currentlyUsedCache, set_prepare, set_prepareResult, set_renderCache,
    set_renderParent, set_renderResult, set_usedContextAttributes, set_childrenData,
    set_pendingRender, set_pendingCompleteRender, set_uncommonData,
    rs_set_isRendering, rs_set_isRenderInterrupted, rs_set_lastRenderWasInterrupted,
    rs_set_lastRenderComponentCount, rs_set_renderStartTime, rs_set_renderInterruptGeneration,
    rs_set_renderComponentCount;
  cbn [heap renderStack renderState interruptedComponents rerenderInterruptedTimeout
       unmountedComponents disappearHandlersTimeout contextNamesByKey promises nextObject
       ticks trace
       flags _id state _changedAttributesSincePrepare _context _boundContext
       _currentlyUsedCache _prepare _prepareResult _renderCache _renderParent _renderResult
       _usedContextAttributes childrenData _pendingRender _pendingCompleteRender uncommonData
       isRendering isRenderInterrupted lastRenderWasInterrupted lastRenderComponentCount
       renderStartTime renderInterruptGeneration renderComponentCount];
  rewrite ?insert_insert_eq.

Ltac heap_lookup :=
  wsimpl;
  repeat first [ rewrite lookup_insert_eq | rewrite lookup_insert_ne by congruence ];
  first [ reflexivity | eassumption ].

(** One step of the engine forward in [H : bind m k w = ...]. *)
Ltac fwd H :=
  unfold pushToRenderStack, popFromRenderStack, modRenderState, scheduleRerenderInterrupted
    in H;
  lazymatch type of H with
  | bind (now ?c) ?k ?w = _ =>
      change (bind (now c) k w) with (k (c (ticks w)) (w_set_ticks (S (ticks w)) w)) in H
  | bind alloc ?k ?w = _ =>
      change (bind alloc k w) with (k (nextObject w) (w_set_nextObject (S (nextObject w)) w)) in H
  | bind (getData ?c) ?k ?w = _ =>
      let E := fresh "E" in
      eassert (heap w !! c = Some _) as E by heap_lookup;
      rewrite (bind_getData c k w _ E) in H; clear E
  | bind (modData ?c ?f) ?k ?w = _ =>
      let E := fresh "E" in
      eassert (heap w !! c = Some _) as E by heap_lookup;
      rewrite (bind_modData c f k w _ E) in H; clear E
  | bind (gets ?g) ?k ?w = _ => rewrite (bind_gets g k w) in H
  | bind (modify ?f) ?k ?w = _ => rewrite (bind_modify f k w) in H
  | bind (logEv ?e) ?k ?w = _ => rewrite (bind_logEv e k w) in H
  | bind (ret ?a) ?k ?w = _ => rewrite (bind_ret a k w) in H
  | bind (bind ?m ?f) ?g ?w = _ => rewrite (bind_assoc m f g w) in H
  end;
  cbn beta in H; wsimpl_in H.


Ltac flags_side :=
  unfold FLAGS_OFFSET, BITS_PHASE, Phase_CREATING, Phase_MOUNTING, Phase_PREPARING,
    Phase_RENDERING, Phase_RENDERED, Phase_UNMOUNTING, Phase_RESTORING in *; lia.

(** Pushes [hasFlag] and [phaseOf] through updates of the bit field,
    everywhere. *)
Ltac flag_norm :=
  unfold FLAG_MOUNTED, FLAG_PREPARED, FLAG_KEPT_MOUNTED, FLAG_AVOID_RENDER_AFTER_RENDER,
    FLAG_NEEDS_RENDER_AFTER_RENDER, FLAG_NEEDS_PREPARE_AFTER_PREPARE,
    FLAG_ERROR_DURING_INITIALIZE, FLAG_RENDER_ROOT_WAS_INTERRUPTED in *;
  repeat first
    [ rewrite hasFlag_setPhaseFlags in * by flags_side
    | rewrite hasFlag_clearFlag_same in * by flags_side
    | rewrite hasFlag_addFlag_same in * by flags_side
    | rewrite hasFlag_clearFlag_other in * by flags_side
    | rewrite hasFlag_addFlag_other in * by flags_side
    | rewrite phaseOf_setPhaseFlags in * by flags_side
    | rewrite phaseOf_addFlag in * by flags_side
    | rewrite phaseOf_clearFlag in * by flags_side ].

Lemma heapAgree_lookup {X} (π : InternalData -> X) w w' c d :
  heapAgree π w w' -> heap w !! c = Some d ->
  exists d', heap w' !! c = Some d' /\ π d' = π d.
Proof.
  intros H Hd. specialize (H c). rewrite Hd in H. simpl in H.
  destruct (heap w' !! c) as [d'|]; simpl in H; [|discriminate].
  exists d'. split; [reflexivity|congruence].
Qed.

Lemma when_true m : when true m = m.
Proof. reflexivity. Qed.

Lemma when_false m : when false m = ret tt.
Proof. reflexivity. Qed.

Section Mount.
Variable cls : ID -> Class.
Variable gas : nat.

Lemma lifecycleStable :
  contextStable (fun d => hasFlag (flags d) FLAG_ERROR_DURING_INITIALIZE).
Proof.
  repeat split; intros; try reflexivity.
  - unfold _invalidatePrepareCache. destruct (childrenData _); cbn; flag_norm; reflexivity.
  - unfold _invalidateRenderCache. destruct (negb _); [|reflexivity].
    cbn. destruct (uncommonData d); reflexivity.
Qed.

Lemma unmountFromParent_elsewhere that parent w d :
  heap w !! that = Some d -> ID_eqb (_renderParent d) parent = false ->
  forall r w', _unmountFromParent gas that parent w = Some (r, w') -> r = Ok tt /\ w' = w.
Proof.
  intros Hd Hne r w' H. destruct gas as [|n]; simpl in H; [discriminate|].
  fwd H. rewrite Hne in H. simpl in H. inversion H; auto.
Qed.

(** The tail of [_remount]: the context is (re)established, then the
    lifecycle hooks run. *)
Lemma remount_tail that wasMounted newParent context w d r w' :
  heap w !! that = Some d ->
  hasFlag (flags d) FLAG_ERROR_DURING_INITIALIZE = false ->
  (_updateContext cls that newParent context ;;
   data <- getData that ;;
   when (negb (hasFlag (flags data) FLAG_ERROR_DURING_INITIALIZE))
        (when (negb wasMounted) (logEv (EvAppear that)) ;;
         logEv (EvMount that))) w = Some (r, w') ->
  exists received,
    Forall (isReceiveContext that) received
    /\ trace w' = trace w ++ received
                   ++ (if wasMounted then [EvMount that] else [EvAppear that; EvMount that]).
Proof.
  intros Hd Herr H.
  bind_split H H1.
  2:{ apply updateContext_returns in H1 as [? ?]. discriminate. }
  pose proof (updateContext_trace cls _ _ _ _ _ _ H1) as (received & Htr & Hrec).
  pose proof (updateContext_heap cls _ _ _ _ lifecycleStable _ _ _ H1) as Hag.
  destruct (heapAgree_lookup _ _ _ _ _ Hag Hd) as (d1 & Hd1 & Hflag). simpl in Hflag.
  fwd H. rewrite Hflag, Herr in H. simpl in H.
  exists received. split; [exact Hrec|].
  destruct wasMounted; simpl in H.
  - fwd H. inversion H; subst. simpl. rewrite Htr, <- app_assoc. reflexivity.
  - fwd H. inversion H; subst. simpl. rewrite Htr, <- !app_assoc. reflexivity.
Qed.

End Mount.



(** C8. The move scenario: on the second pass component [4], still
    mounted under [2], is rendered by [3]. [onMount] is invoked on it, but
    [onUnmount] is not, neither when [3] takes it over nor when [2] finishes
    without it; [onDisappear] does not follow either. *)
Lemma move_invokes_onMount_without_onUnmount :
  eventsOf 4 (traceOf [renderRootCall moveClasses 1 (VNum 0)] moveWorld)
  = [EvReceiveContext 4 None; EvAppear 4; EvMount 4; EvDoPrepare 4; EvDoRender 4 VUndef VNull]
  /\ eventsOf 4 (traceOf [renderRootCall moveClasses 1 (VNum 0);
                           renderRootCall moveClasses 1 (VNum 1);
                           disappearTickCall] moveWorld)
     = [EvReceiveContext 4 None; EvAppear 4; EvMount 4; EvDoPrepare 4; EvDoRender 4 VUndef VNull;
        EvMount 4; EvCachedRender 4 renderedText]
  /\ (_renderParent <$>
        heap (finalWorld [renderRootCall moveClasses 1 (VNum 0);
                          renderRootCall moveClasses 1 (VNum 1)] moveWorld) !! 4)
     = Some (Some 3).
Proof. vm_compute. repeat split. Qed.

(** ** Interrupted passes *)

Section Interrupt.
Variable cls : ID -> Class.
Variable clock : nat -> Z.
Variable gas : nat.
Variable rec : Call -> M Val.

Lemma performRender_begin_interrupted that keep w d r w1 :
  heap w !! that = Some d ->
  isRenderInterrupted (renderState w) = true ->
  performRender_begin cls clock that keep w = Some (r, w1) ->
  r = Ok (renderedChildrenOf d, interruptRequest cls clock that d w)
  /\ trace w1 = trace w
  /\ renderState w1 = renderState w
  /\ interruptedComponents w1 = interruptedComponents w
  /\ renderStack w1 = renderStack w ++ [that]
  /\ exists d1, heap w1 = <[that := d1]> (heap w)
                /\ _id d1 = _id d /\ state d1 = state d /\ _renderParent d1 = _renderParent d.
Proof.
  intros Hd Hflag H. unfold performRender_begin in H.
  fwd H.
  destruct keep; cbn [negb] in H; [rewrite when_false in H|rewrite when_true in H].
  all: repeat fwd H; rewrite Hflag in H; cbn [orb negb] in H;
    repeat fwd H; rewrite andb_false_r, when_false in H; fwd H;
    inversion H; subst; clear H; unfold interruptRequest; cbn;
    destruct (childrenData d) eqn:Hcd; cbn;
    repeat (split; [reflexivity|]);
    (eexists; split; [reflexivity|]); cbn; auto.
Qed.

Lemma forEach_modData {A} that (f : A -> InternalData -> InternalData) (l : list A) :
  forall w d,
    heap w !! that = Some d ->
    forEach l (fun x => modData that (f x)) w
    = Some (Ok tt, w_set_heap (<[that := foldl (fun d x => f x d) d l]> (heap w)) w).
Proof.
  induction l as [|x l IH]; intros w d Hd; simpl.
  - unfold ret. rewrite insert_id by exact Hd. destruct w; reflexivity.
  - rewrite (bind_modData _ _ _ _ _ Hd).
    rewrite (IH _ (f x d)) by (simpl; apply lookup_insert_eq).
    simpl. rewrite insert_insert_eq. reflexivity.
Qed.

Lemma nget_nset_same {V} (m : list (nat * V)) k v : nget (nset m k v) k = Some v.
Proof.
  induction m as [|[k' v'] m IH]; simpl.
  - rewrite Nat.eqb_refl. reflexivity.
  - destruct (k =? k') eqn:E; simpl; rewrite E; [reflexivity|exact IH].
Qed.

Lemma recordInterrupted_spec that root rootData w :
  head (renderStack w) = Some root ->
  heap w !! root = Some rootData ->
  exists w1,
    recordInterrupted that w = Some (Ok tt, w1)
    /\ heap w1 = heap w /\ trace w1 = trace w /\ renderState w1 = renderState w
    /\ renderStack w1 = renderStack w
    /\ recordedUnder root rootData that w w1.
Proof.
  intros Hroot Hrd. unfold recordInterrupted, recordedUnder.
  rewrite bind_gets. unfold getCurrentRenderRoot. rewrite Hroot.
  rewrite (bind_getData _ _ _ _ Hrd), bind_modify.
  unfold scheduleRerenderInterrupted, modify.
  eexists. split; [reflexivity|].
  wsimpl. destruct (rerenderInterruptedTimeout w); wsimpl; rewrite nget_nset_same; auto 10.
Qed.

Lemma restoreChildren_fold prev : forall d,
  let d' := foldl (fun d (kv : ID * CacheEntry) =>
                     modChildrenData
                       (fun cd => cd_set_renderedChildren
                                    (nset (renderedChildren cd) kv.1 kv.2) cd) d) d prev in
  _renderParent d' = _renderParent d /\ state d' = state d.
Proof.
  induction prev as [|kv prev IH]; intros d; simpl; [auto|].
  destruct (IH (modChildrenData
                  (fun cd => cd_set_renderedChildren
                               (nset (renderedChildren cd) kv.1 kv.2) cd) d)) as [E1 E2].
  simpl in E1, E2. rewrite E1, E2. auto.
Qed.

Lemma restoreChildren_spec that (prevChildren : option Children) w d :
  heap w !! that = Some d ->
  exists d',
    match prevChildren with
    | Some prev =>
        modData that ensureChildrenData ;;
        forEach prev
          (fun kv => modData that
                       (modChildrenData
                          (fun cd => cd_set_renderedChildren
                                       (nset (renderedChildren cd) kv.1 kv.2) cd)))
    | None => ret tt
    end w = Some (Ok tt, w_set_heap (<[that := d']> (heap w)) w)
    /\ _renderParent d' = _renderParent d /\ state d' = state d.
Proof.
  intros Hd. destruct prevChildren as [prev|].
  - eexists. rewrite (bind_modData _ _ _ _ _ Hd).
    erewrite forEach_modData by (simpl; apply lookup_insert_eq).
    simpl. rewrite insert_insert_eq. split; [reflexivity|].
    destruct (restoreChildren_fold prev (ensureChildrenData d)) as [E1 E2].
    simpl in E1, E2. rewrite E1, E2.
    unfold ensureChildrenData. destruct (childrenData d); auto.
  - exists d. unfold ret. rewrite insert_id by exact Hd. destruct w; auto.
Qed.

Ltac finish_inv H :=
  repeat (let Hx := fresh "Hx" in bind_split H Hx; [|discriminate]);
  inversion H; subst; clear H.


(** When a component's predicate asks for an interrupt, the pass is marked
    interrupted from then on. *)
Lemma interrupt_request_marks_pass that keep w prevChildren w1 :
  performRender_begin cls clock that keep w = Some (Ok (prevChildren, true), w1) ->
  isRenderInterrupted (renderState w1) = true.
Proof.
  intros H. unfold performRender_begin in H.
  bind_split H Hd; [|discriminate]. prim_inv Hd.
  bind_split H Hx; [|discriminate].
  assert (exists d', heap w0 !! that = Some d' /\ renderState w0 = renderState w) as (d' & Hd' & Hrs).
  { destruct keep; simpl in Hx.
    - inversion Hx; subst. eauto.
    - prim_inv Hx. simpl. rewrite lookup_insert_eq. eauto. }
  clear Hx. do 3 fwd H. rewrite Hrs in H.
  destruct (isRenderInterrupted (renderState w)) eqn:Hflag.
  - cbn [orb] in H. repeat fwd H. cbn [negb] in H. rewrite andb_false_r, when_false in H.
    fwd H. inversion H; subst. simpl. congruence.
  - cbn [orb negb] in H.
    match type of H with
    | bind (if ?c then _ else _) _ _ = _ => destruct c
    end.
    + repeat fwd H.
      match type of H with
      | bind (when (?c && true) _) _ _ = _ => destruct c
      end.
      * cbn [andb] in H. rewrite when_true in H. repeat fwd H.
        inversion H; subst. reflexivity.
      * cbn [andb] in H. rewrite when_false in H. fwd H. inversion H.
    + fwd H. cbn [andb] in H. rewrite when_false in H. fwd H. inversion H.
Qed.
End Interrupt.



(** ** Rendering an error *)

Lemma sparing_refl S w : sparing S w w.
Proof. repeat split; auto. apply traceGrows_refl. Qed.

Lemma sparing_trans S w1 w2 w3 : sparing S w1 w2 -> sparing S w2 w3 -> sparing S w1 w3.
Proof.
  intros (A1 & B1 & C1 & D1) (A2 & B2 & C2 & D2). repeat split.
  - intros s Hs. rewrite A2, A1 by exact Hs. reflexivity.
  - eapply traceGrows_trans; eassumption.
  - congruence.
  - congruence.
Qed.

Lemma closedUnderParent_spec S w :
  closedUnderParent S w = true <->
  forall s d p, s ∈ S -> heap w !! s = Some d -> _renderParent d = Some p -> p ∈ S.
Proof.
  unfold closedUnderParent. rewrite forallb_forall. split.
  - intros H s d p Hs Hd Hp. apply list_elem_of_In in Hs. specialize (H s Hs).
    rewrite Hd, Hp in H. apply bool_decide_eq_true in H. exact H.
  - intros H s Hs. apply list_elem_of_In in Hs.
    destruct (heap w !! s) as [d|] eqn:Hd; [|reflexivity].
    destruct (_renderParent d) as [p|] eqn:Hp; [|reflexivity].
    apply bool_decide_eq_true. eauto.
Qed.

Lemma closedUnderParent_sparing S w w' :
  closedUnderParent S w = true -> sparing S w w' -> closedUnderParent S w' = true.
Proof.
  rewrite !closedUnderParent_spec. intros H (A & _) s d p Hs Hd Hp.
  rewrite A in Hd by exact Hs. eauto.
Qed.

Lemma sparing_modData S c f : c ∉ S -> frames (sparing S) (modData c f).
Proof.
  intros Hc w r w' H. prim_inv H. repeat split; simpl; auto.
  - intros s Hs. apply lookup_insert_ne. intros ->. contradiction.
  - apply traceGrows_same. reflexivity.
Qed.

Lemma sparing_modify S f :
  (forall w, heap (f w) = heap w /\ trace (f w) = trace w
             /\ renderStack (f w) = renderStack w /\ renderState (f w) = renderState w) ->
  frames (sparing S) (modify f).
Proof.
  intros Hf w r w' H. inversion H; subst. destruct (Hf w) as (A & B & C & D).
  repeat split; auto.
  - intros. rewrite A. reflexivity.
  - apply traceGrows_same. exact B.
Qed.

Lemma ID_eqb_eq a b : ID_eqb a b = true <-> a = b.
Proof.
  destruct a, b; simpl; try (split; congruence).
  rewrite Nat.eqb_eq. split; congruence.
Qed.

Lemma sparing_logEv S e : eventComponent e ∉ S -> frames (sparing S) (logEv e).
Proof.
  intros He w r w' H. inversion H; subst. repeat split; simpl; auto.
  exists [e]. auto.
Qed.

Lemma forEach_sparing {A} S (f : A -> M unit) (l : list A) :
  (forall x w r w', x ∈ l -> closedUnderParent S w = true -> f x w = Some (r, w') ->
                    r = Ok tt /\ sparing S w w') ->
  forall w r w', closedUnderParent S w = true -> forEach l f w = Some (r, w') ->
                 r = Ok tt /\ sparing S w w'.
Proof.
  induction l as [|x l IH]; intros Hf w r w' Hc H; simpl in H.
  - inversion H; subst. split; [reflexivity|apply sparing_refl].
  - bind_split H H1.
    + destruct (Hf x w _ _ ltac:(left) Hc H1) as [_ Hs1].
      destruct (IH (fun y w r w' Hy => Hf y w r w' ltac:(right; exact Hy)) w0 r w'
                   (closedUnderParent_sparing _ _ _ Hc Hs1) H) as [-> Hs2].
      split; [reflexivity|]. eapply sparing_trans; eassumption.
    + destruct (Hf x w _ _ ltac:(left) Hc H1) as [? _]. discriminate.
Qed.

Section Unmount.
Variable S : list ID.
Variable gas : nat.

Lemma unmountFromParent_sparing fuel : forall that parent w r w',
  closedUnderParent S w = true ->
  (that ∈ S -> forall d, heap w !! that = Some d -> _renderParent d <> parent) ->
  _unmountFromParent fuel that parent w = Some (r, w') ->
  r = Ok tt /\ sparing S w w'.
Proof.
  induction fuel as [|n IH]; intros that parent w r w' Hc Hprot H; simpl in H; [discriminate|].
  bind_split H Hd; [|prim_inv Hd]. prim_inv Hd.
  destruct (ID_eqb (_renderParent d) parent) eqn:Heq; cbn [negb] in H.
  2:{ inversion H; subst. split; [reflexivity|apply sparing_refl]. }
  apply ID_eqb_eq in Heq.
  assert (that ∉ S) as Hout.
  { intros Hin. exact (Hprot Hin d Hheap Heq). }
  assert (forall c w, closedUnderParent S w = true ->
                      c ∈ S -> forall dc, heap w !! c = Some dc -> _renderParent dc <> Some that)
    as Hchild.
  { intros c wc Hcc Hin dc Hdc Hp. apply Hout.
    rewrite closedUnderParent_spec in Hcc. eauto. }
  bind_split H Hkids.
  2:{ destruct (childrenData d) as [cd|]; [|inversion Hkids].
      eapply forEach_sparing in Hkids as [? _]; [discriminate| |exact Hc].
      intros kv wk rk wk' _ Hck Hk.
      eapply IH; [exact Hck|intros Hin dc Hdc; exact (Hchild _ _ Hck Hin dc Hdc)|exact Hk]. }
  assert (sparing S w w0) as Hs0.
  { destruct (childrenData d) as [cd|].
    - eapply forEach_sparing in Hkids as [_ ?]; [eassumption| |exact Hc].
      intros kv wk rk wk' _ Hck Hk.
      eapply IH; [exact Hck|intros Hin dc Hdc; exact (Hchild _ _ Hck Hin dc Hdc)|exact Hk].
    - inversion Hkids; subst. apply sparing_refl. }
  clear Hkids.
  assert (frames (sparing S)
            (modData that (setPhase Phase_UNMOUNTING) ;;
             modData that _invalidatePrepareCache ;;
             modData that _invalidateRenderCache ;;
             data <- getData that ;;
             let silent := hasFlag (flags data) FLAG_ERROR_DURING_INITIALIZE in
             when (negb silent) (logEv (EvUnmount that)) ;;
             modData that (fun d => set_renderParent None
                                      (set_flags (clearFlag (flags d) FLAG_MOUNTED) d)) ;;
             when (negb silent)
                  (modify (fun w => w_set_unmountedComponents (unmountedComponents w ++ [that]) w) ;;
                   scheduleDisappearHandlers))) as Hrest.
  { frames_auto (sparing_refl S) (sparing_trans S); try (apply sparing_modData; exact Hout).
    - apply sparing_logEv. exact Hout.
    - apply sparing_modify. intros; auto.
    - apply sparing_modify. intros w1. unfold scheduleDisappearHandlers.
      destruct (disappearHandlersTimeout w1); auto. }
  assert (returns
            (modData that (setPhase Phase_UNMOUNTING) ;;
             modData that _invalidatePrepareCache ;;
             modData that _invalidateRenderCache ;;
             data <- getData that ;;
             let silent := hasFlag (flags data) FLAG_ERROR_DURING_INITIALIZE in
             when (negb silent) (logEv (EvUnmount that)) ;;
             modData that (fun d => set_renderParent None
                                      (set_flags (clearFlag (flags d) FLAG_MOUNTED) d)) ;;
             when (negb silent)
                  (modify (fun w => w_set_unmountedComponents (unmountedComponents w ++ [that]) w) ;;
                   scheduleDisappearHandlers))) as Hret.
  { returns_auto. }
  destruct (Hret _ _ _ H) as [[] ->].
  split; [reflexivity|]. eapply sparing_trans; [exact Hs0|]. exact (Hrest _ _ _ H).
Qed.

Lemma unmountPreviousChildren_sparing that prev next w r w' :
  closedUnderParent S w = true ->
  disjointFrom S (dropped (Some prev) next) = true ->
  _unmountPreviousChildren gas prev next that w = Some (r, w') ->
  r = Ok tt /\ sparing S w w'.
Proof.
  intros Hc Hdis H. unfold _unmountPreviousChildren in H.
  eapply forEach_sparing in H; [exact H| |exact Hc].
  intros kv wk rk wk' Hin Hck Hk.
  match type of Hk with when ?b _ _ = _ => destruct b eqn:Hb end.
  - rewrite when_true in Hk.
    eapply unmountFromParent_sparing; [exact Hck| |exact Hk].
    intros Hs. exfalso.
    unfold disjointFrom in Hdis. rewrite forallb_forall in Hdis.
    specialize (Hdis (ce_instance kv.2)).
    rewrite bool_decide_eq_true_2 in Hdis by exact Hs. simpl in Hdis.
    assert (true = false) as X; [|discriminate X]. symmetry. apply Hdis.
    apply list_elem_of_In. unfold dropped. apply list_elem_of_fmap. exists kv.
    split; [reflexivity|]. apply list_elem_of_filter. split; [exact Hb|exact Hin].
  - rewrite when_false in Hk. inversion Hk; subst. split; [reflexivity|apply sparing_refl].
Qed.
End Unmount.

Section Kept.
Variable S : list ID.
Variable that : ID.

Lemma kept_refl w : kept S that w w.
Proof. repeat split; auto. apply traceGrows_refl. Qed.

Lemma kept_trans w1 w2 w3 : kept S that w1 w2 -> kept S that w2 w3 -> kept S that w1 w3.
Proof.
  intros (A1 & B1 & C1) (A2 & B2 & C2). repeat split.
  - intros s Hs. rewrite A2, A1 by exact Hs. reflexivity.
  - etrans; eassumption.
  - eapply traceGrows_trans; eassumption.
Qed.

Lemma sparing_kept w w' : that ∈ S -> sparing S w w' -> kept S that w w'.
Proof.
  intros Hthat (A & B & _). repeat split.
  - intros s Hs. rewrite A by exact Hs. reflexivity.
  - unfold childKeys. rewrite A by exact Hthat. reflexivity.
  - exact B.
Qed.

Lemma kept_modData c f :
  (forall d, mountState (f d) = mountState d) ->
  (forall d, childKeysOf d ⊆ childKeysOf (f d)) ->
  frames (kept S that) (modData c f).
Proof.
  intros Hm Hk. apply frames_modData. intros w d Hd. repeat split; simpl.
  - intros s _. destruct (decide (c = s)) as [->|Hne].
    + rewrite lookup_insert_eq, Hd. simpl. rewrite Hm. reflexivity.
    + rewrite lookup_insert_ne by exact Hne. reflexivity.
  - unfold childKeys. simpl. destruct (decide (c = that)) as [->|Hne].
    + rewrite lookup_insert_eq, Hd. apply Hk.
    + rewrite lookup_insert_ne by exact Hne. reflexivity.
  - apply traceGrows_same. reflexivity.
Qed.

Lemma kept_modify f :
  (forall w, heap (f w) = heap w /\ trace (f w) = trace w) ->
  frames (kept S that) (modify f).
Proof.
  intros Hf. apply frames_modify. intros w. destruct (Hf w) as [A B]. repeat split.
  - intros. rewrite A. reflexivity.
  - unfold childKeys. rewrite A. reflexivity.
  - apply traceGrows_same. exact B.
Qed.

Lemma kept_now clock : frames (kept S that) (now clock).
Proof. intros w r w' H. inversion H; subst. repeat split; auto. apply traceGrows_same. reflexivity. Qed.

Lemma kept_alloc : frames (kept S that) alloc.
Proof. intros w r w' H. inversion H; subst. repeat split; auto. apply traceGrows_same. reflexivity. Qed.

Lemma nset_keys {V} (m : list (nat * V)) k v : m.*1 ⊆ (nset m k v).*1.
Proof.
  induction m as [|[k' v'] m IH]; simpl.
  - apply list_subseteq_nil.
  - destruct (k =? k'); simpl; [reflexivity|].
    intros x Hx. apply elem_of_cons in Hx as [->|Hx]; [left|right; apply IH, Hx].
Qed.

Lemma childFinishedRender_kept this child result :
  frames (kept S that) (_childFinishedRender this child result).
Proof.
  unfold _childFinishedRender.
  frames_auto kept_refl kept_trans.
  - apply kept_alloc.
  - apply kept_modData; [reflexivity|].
    intros d. unfold childKeysOf, modChildrenData, renderedChildrenOf, theChildrenData. simpl.
    destruct (childrenData d) as [cd|]; simpl; [apply nset_keys|apply list_subseteq_nil].
  - apply kept_modData; [reflexivity|reflexivity].
Qed.

Lemma childFinishedRender_returns this child result :
  returns (_childFinishedRender this child result).
Proof.
  unfold _childFinishedRender. returns_auto.
  intros w r w' H. inversion H; eauto.
Qed.

Lemma performRender_begin_kept cls clock :
  frames (kept S that) (performRender_begin cls clock that true).
Proof.
  unfold performRender_begin. cbn [negb]. rewrite when_false.
  unfold pushToRenderStack, modRenderState.
  frames_auto kept_refl kept_trans.
  - apply kept_modify. auto.
  - apply kept_modData; [|reflexivity]. intros d. unfold mountState, setPhase. simpl.
    flag_norm. reflexivity.
  - match goal with |- frames _ (if ?c then _ else _) => destruct c end;
      frames_auto kept_refl kept_trans. apply kept_now.
  - apply kept_modify. auto.
Qed.

Lemma performRender_begin_returns cls clock keep : returns (performRender_begin cls clock that keep).
Proof.
  unfold performRender_begin, pushToRenderStack, modRenderState. returns_auto.
  match goal with |- returns (if ?c then _ else _) => destruct c end; returns_auto.
  intros w r w' H. inversion H; eauto.
Qed.
End Kept.

Lemma closedUnderParent_heap S w w' :
  heap w' = heap w -> closedUnderParent S w' = closedUnderParent S w.
Proof. intros E. unfold closedUnderParent. rewrite E. reflexivity. Qed.

Lemma tryCatch_run {A} (m : M A) w o w1 :
  m w = Some (o, w1) -> tryCatch m w = Some (Ok o, w1).
Proof. unfold tryCatch. intros ->. reflexivity. Qed.

Section ErrorRender.
Variable cls : ID -> Class.
Variable clock : nat -> Z.
Variable gas : nat.
Variable rec : Call -> M Val.

(** What is left of [_performRender] once the attempt has thrown [e], an
    error to be rendered. *)
Lemma performRender_finish_error S that arg isRequired isOptional prev e w1 r w2 :
  truthy e = true -> isRenderPending e = false -> strict_eq e VInterrupt = false ->
  that ∈ S ->
  closedUnderParent S w1 = true ->
  disjointFrom S (dropped prev (childrenIn w1 that)) = true ->
  performRender_finish cls gas rec that arg isRequired isOptional false prev false e w1
  = Some (r, w2) ->
  r = Ok (false, VUndef, e) /\ kept S that w1 w2.
Proof.
  intros Ht Hp Hi Hthat Hc Hdis H.
  unfold performRender_finish in H. rewrite Hi, Hp in H. cbn [andb orb negb] in H.
  rewrite when_false, when_true in H.
  fwd H. bind_split H Hd; [|prim_inv Hd]. prim_inv Hd.
  fwd H. fwd H.
  match type of H with _ ?W = _ => remember W as wp eqn:Hwp end.
  assert (heap wp = heap w1) as Hhp by (subst wp; reflexivity).
  assert (kept S that w1 wp) as K1.
  { subst wp. repeat split; auto. apply traceGrows_same. reflexivity. }
  assert (heap wp !! that = Some d) as Hdp by (rewrite Hhp; exact Hheap).
  assert (closedUnderParent S wp = true) as Hcp
    by (rewrite (closedUnderParent_heap _ _ _ Hhp); exact Hc).
  clear Hwp. fwd H. fwd H.
  assert (exists wu, kept S that wp wu
                     /\ (match _renderParent d with
                         | Some parent => _childFinishedRender parent that VUndef
                         | None => ret tt
                         end ;; ret (false, VUndef, e)) wu = Some (r, w2)) as (wu & K2 & H2).
  { destruct prev as [prev|].
    - unfold childrenIn in Hdis. rewrite Hheap in Hdis. simpl in Hdis.
      bind_split H Hu.
      + destruct (unmountPreviousChildren_sparing S gas _ _ _ _ _ _ Hcp Hdis Hu) as [_ Hs].
        exists w. split; [apply sparing_kept; assumption|exact H].
      + destruct (unmountPreviousChildren_sparing S gas _ _ _ _ _ _ Hcp Hdis Hu) as [? _].
        discriminate.
    - fwd H. exists wp. split; [apply kept_refl|exact H]. }
  clear H.
  assert (r = Ok (false, VUndef, e) /\ kept S that wu w2) as [-> K3].
  { destruct (_renderParent d) as [parent|].
    - bind_split H2 Hf.
      + inversion H2; subst. split; [reflexivity|].
        exact (childFinishedRender_kept S that _ _ _ _ _ _ Hf).
      + apply childFinishedRender_returns in Hf as [? ?]. discriminate.
    - fwd H2. inversion H2; subst. split; [reflexivity|apply kept_refl]. }
  split; [reflexivity|].
  eapply kept_trans; [exact K1|]. eapply kept_trans; eassumption.
Qed.

(** The same after the error hook itself has thrown [e]: the error is
    handed back. *)
Lemma performRender_finish_rethrow that arg isRequired isOptional prev e w r w' :
  isRenderPending e = false -> strict_eq e VInterrupt = false ->
  performRender_finish cls gas rec that arg isRequired isOptional true prev false e w
  = Some (r, w') ->
  r = Ok (false, VUndef, e).
Proof.
  intros Hp Hi H.
  unfold performRender_finish in H. rewrite Hi, Hp in H. cbn [andb orb negb] in H.
  rewrite !when_false in H.
  fwd H. bind_split H Hd; [|prim_inv Hd]. prim_inv Hd.
  fwd H. fwd H. fwd H.
  destruct (_renderParent d) as [parent|].
  - bind_split H Hf.
    + inversion H; subst. reflexivity.
    + apply childFinishedRender_returns in Hf as [? ?]. discriminate.
  - fwd H. inversion H; subst. reflexivity.
Qed.

End ErrorRender.



Lemma error_hook_error_propagates_example :
  outcomesOf [renderRootCall rethrowingClasses 1 VUndef] (failingWorld rethrowingClasses)
  = Some [Thrown failure]
  /\ eventsOf 1 (traceOf [renderRootCall rethrowingClasses 1 VUndef]
                        (failingWorld rethrowingClasses))
     = [EvReceiveContext 1 None; EvAppear 1; EvMount 1; EvDoPrepare 1;
        EvDoRender 1 VUndef VNull; EvDoRenderError 1 VUndef failure]
  /\ eventsOf 2 (traceOf [renderRootCall rethrowingClasses 1 VUndef]
                        (failingWorld rethrowingClasses))
     = [EvReceiveContext 2 None; EvAppear 2; EvMount 2; EvDoPrepare 2;
        EvDoRender 2 VUndef VNull].
Proof. vm_compute. repeat split. Qed.

(** ** Rendering again from the cache *)

Lemma bind_resetState {B} (k : RenderStateSnapshot -> M B) w :
  bind resetState k w
  = k (renderState w, renderStack w)
      (w_set_renderStack []
         (w_set_renderState
            (mkRenderState false false false 0 (renderStartTime (renderState w))
                           (renderInterruptGeneration (renderState w)) 0) w)).
Proof. reflexivity. Qed.

Section Again.
Variable cls : ID -> Class.
Variable clock : nat -> Z.
Variable gas : nat.
Variable rec : Call -> M Val.

Lemma doRender_cached that arg w d e :
  heap w !! that = Some d ->
  _renderParent d = None ->
  hasFlag (flags d) FLAG_PREPARED = true ->
  _prepare d = None ->
  shouldPrepare (cls that) (state d) (default [] (_changedAttributesSincePrepare d)) = false ->
  reusableEntry cls that (contextNamesByKey w) d arg = Some e ->
  _currentlyUsedCache d = Some (ce_uid e) ->
  exists d' rs',
    _doRender cls gas rec that arg w
    = Some (Ok (ce_result e),
            w_set_renderState rs'
              (w_set_trace (trace w ++ [EvCachedRender that (ce_result e)])
                 (w_set_heap (<[that := d']> (heap w)) w)))
    /\ isRenderInterrupted rs' = isRenderInterrupted (renderState w)
    /\ flags d' = flags d
    /\ _renderParent d' = None
    /\ uncommonData d' = uncommonData d
    /\ renderedChildrenOf d'
       = match ce_children e with
         | Some children => Some children
         | None => (fun _ => []) <$> childrenData d
         end.
Proof.
  intros Hd Hroot Hp Hps Hsp Hent Huse.
  remember (_doRender cls gas rec that arg w) as o eqn:H. symmetry in H.
  unfold reusableEntry in Hent.
  destruct d as [fl id st chg ctx bctx cuc prep prepRes rcache rparent rres used cdata pr pcr ud].
  cbn [flags _id state _changedAttributesSincePrepare _context _boundContext
       _currentlyUsedCache _prepare _prepareResult _renderCache _renderParent _renderResult
       _usedContextAttributes childrenData _pendingRender _pendingCompleteRender uncommonData]
    in *.
  subst rparent prep cuc.
  unfold _doRender in H. fwd H. unfold isPreparePending in H. wsimpl_in H. fwd H.
  cbv iota in H. rewrite Hp, Hsp in H. cbn [negb orb] in H.
  repeat fwd H.
  destruct e as [uid result inst children ectx eused cnt].
  cbn [ce_uid ce_result ce_children ce_descendantCount] in *.
  destruct cdata as [cd|]; unfold reusableEntry in H; wsimpl_in H; rewrite Hent in H.
  all: cbn [_useCache] in H; destruct children as [ch|].
  all: repeat (fwd H; unfold modChildrenData, theChildrenData in H; wsimpl_in H;
               cbn [default] in H).
  all: cbn [ID_eqb] in H; rewrite Nat.eqb_refl in H; repeat fwd H.
  all: subst o; eexists _, _; (split; [reflexivity|]); cbn; auto 10.
Qed.

Lemma nhas_own {V} (m : list (ID * V)) (kv : ID * V) : kv ∈ m -> nhas m kv.1 = true.
Proof.
  unfold jm_has. induction m as [|[k v] m IH]; intros Hin.
  - inversion Hin.
  - simpl. destruct (kv.1 =? k) eqn:E; [reflexivity|].
    apply elem_of_cons in Hin as [->|Hin]; [|exact (IH Hin)].
    simpl in E. rewrite Nat.eqb_refl in E. discriminate.
Qed.

Lemma unmountPreviousChildren_same children that w :
  _unmountPreviousChildren gas children (Some children) that w = Some (Ok tt, w).
Proof.
  unfold _unmountPreviousChildren.
  assert (forall l, (forall kv, kv ∈ l -> kv ∈ children) ->
                    forEach l
                      (fun kv : ID * CacheEntry =>
                         when (negb (nhas children kv.1))
                              (_unmountFromParent gas (ce_instance kv.2) (Some that))) w
                    = Some (Ok tt, w)) as Hl.
  { induction l as [|kv l IH]; intros Hsub; cbn [forEach]; [reflexivity|].
    rewrite (nhas_own children kv) by (apply Hsub; left).
    cbn [negb]. rewrite when_false, bind_ret. apply IH. intros kv' Hin. apply Hsub. right. exact Hin. }
  apply Hl. auto.
Qed.

Lemma render_body_cached remaining that arg context isRequired isOptional w d e :
  heap w !! that = Some d ->
  renderStack w = [] ->
  isRenderInterrupted (renderState w) = false ->
  _renderParent d = None ->
  hasFlag (flags d) FLAG_PREPARED = true ->
  hasFlag (flags d) FLAG_NEEDS_RENDER_AFTER_RENDER = false ->
  _prepare d = None ->
  truthy (match uncommonData d with
          | Some u => renderError u
          | None => VNull
          end) = false ->
  (forall generation time components,
      shouldInterruptRender (cls that) (state d) generation time components = false) ->
  shouldPrepare (cls that) (state d) (default [] (_changedAttributesSincePrepare d)) = false ->
  reusableEntry cls that (contextNamesByKey w) d arg = Some e ->
  _currentlyUsedCache d = Some (ce_uid e) ->
  renderedChildrenOf d = ce_children e ->
  strict_eq (ce_result e) VInterrupt = false ->
  exists w',
    _render cls clock gas rec remaining that arg context isRequired isOptional w
    = Some (Ok (ce_result e), w')
    /\ trace w' = trace w ++ [EvCachedRender that (ce_result e)]
    /\ is_Some (heap w' !! that).
Proof.
  intros Hd Hst Hflag Hroot Hp Hnr Hps Herr Hint Hsp Hent Huse Hch Hres.
  remember (_render cls clock gas rec remaining that arg context isRequired isOptional w)
    as o eqn:H.
  symmetry in H.
  unfold reusableEntry in Hent.
  destruct d as [fl id st chg ctx bctx cuc prep prepRes rcache rparent rres used cdata pr pcr ud].
  unfold renderedChildrenOf in Hch.
  cbn [flags _id state _changedAttributesSincePrepare _context _boundContext
       _currentlyUsedCache _prepare _prepareResult _renderCache _renderParent _renderResult
       _usedContextAttributes childrenData _pendingRender _pendingCompleteRender uncommonData]
    in *.
  subst rparent prep cuc.
  destruct remaining as [|n]; cbn [_render] in H.
  all: fwd H; rewrite Herr in H; cbv iota in H.
  all: unfold _performRender in H at 1; unfold performRender_begin in H.
  all: repeat fwd H; cbn [negb] in H; rewrite when_true in H.
  all: destruct cdata as [cd|]; repeat fwd H.
  all: rewrite Hflag in H; cbn [orb negb andb] in H.
  all: match type of H with bind (if ?c then _ else _) _ _ = _ => destruct c end.
  all: repeat fwd H; rewrite ?Hint in H; cbn [andb] in H; rewrite when_false in H.
  all: repeat fwd H; cbv beta iota in H.
  all: unfold performRender_attempt in H at 1; cbn [truthy] in H; repeat fwd H.
  all: match type of H with
       | bind (tryCatch (_doRender _ _ _ _ _)) _ ?W = _ =>
           edestruct (doRender_cached that arg W) as (d' & rs' & Hdo & Hri & Hfl & Hrp & Hud & Hrc);
             [heap_lookup|reflexivity|cbn; flag_norm; exact Hp|reflexivity|exact Hsp
             |unfold reusableEntry; cbn; exact Hent|reflexivity|]
       end.
  all: rewrite (bind_ok _ _ _ _ _ (tryCatch_run _ _ _ _ Hdo)) in H; clear Hdo.
  all: repeat fwd H; cbv beta iota in H.
  all: unfold performRender_finish in H at 1; rewrite Hres in H; cbn [andb negb fmap option_fmap option_map renderedChildrenOf] in H.
  all: rewrite when_false, when_true in H; repeat fwd H; rewrite ?Hrp in H.
  all: rewrite <- Hch in Hrc; unfold renderedChildrenOf in H, Hrc.
  all: cbn [childrenData fmap option_fmap option_map] in H, Hrc.
  all: rewrite ?Hrc, ?(bind_ok _ _ _ _ _ (unmountPreviousChildren_same _ _ _)) in H.
  all: repeat fwd H; cbv beta iota in H; cbn [negb andb truthy] in H.
  all: repeat fwd H.
  all: cbn in Hri, Hfl; rewrite Hflag in Hri; rewrite Hri in H; cbn [negb] in H.
  all: rewrite when_true in H; repeat fwd H; rewrite Hfl in H.
  all: flag_norm; rewrite Hnr in H; cbv iota in H.
  all: subst o; eexists; (split; [reflexivity|]); cbn; split; [reflexivity|].
  all: rewrite lookup_insert_eq; eauto.
Qed.


Lemma render_cached that arg options names w d e :
  heap w !! that = Some d ->
  renderStack w = [] ->
  isRendering (renderState w) = true ->
  isRenderInterrupted (renderState w) = false ->
  contextNamesByKey w = names ->
  _renderParent d = None ->
  hasFlag (flags d) FLAG_MOUNTED = true ->
  hasFlag (flags d) FLAG_PREPARED = true ->
  _prepare d = None ->
  match _context d with
  | Some prev => Context.same (default emptyContext (opt_context options)) prev
  | None => false
  end = true ->
  truthy (match uncommonData d with
          | Some u => renderError u
          | None => VNull
          end) = false ->
  (forall generation time components,
      shouldInterruptRender (cls that) (state d) generation time components = false) ->
  shouldPrepare (cls that) (state d) (default [] (_changedAttributesSincePrepare d)) = false ->
  reusableEntry cls that names d arg = Some e ->
  _currentlyUsedCache d = Some (ce_uid e) ->
  renderedChildrenOf d = ce_children e ->
  strict_eq (ce_result e) VInterrupt = false ->
  exists w',
    render cls clock gas rec that arg options w = Some (Ok (ce_result e), w')
    /\ trace w' = trace w ++ [EvCachedRender that (ce_result e)]
    /\ is_Some (heap w' !! that).
Proof.
  intros Hd Hst Hrend Hflag Hnames Hroot Hm Hp Hps Hctx Herr Hint Hsp Hent Huse Hch Hres.
  remember (render cls clock gas rec that arg options w) as o eqn:H. symmetry in H.
  unfold render in H. fwd H. rewrite Hrend in H. cbn [negb] in H.
  unfold _enterRender in H.
  repeat fwd H. rewrite Hst, Hroot in H. cbn [last ID_eqb negb orb bool_decide] in H.
  flag_norm. rewrite Hm, andb_false_r in H. cbv iota in H.
  unfold _updateContext in H. repeat fwd H.
  assert (receivedContext cls None (opt_context options)
          = ret (default emptyContext (opt_context options))) as E
    by (unfold receivedContext; destruct (opt_context options); reflexivity).
  rewrite E in H; clear E. fwd H. rewrite Hctx in H. cbn [negb] in H. cbv iota in H. fwd H.
  match type of H with
  | _render _ _ _ _ _ _ _ _ _ _ ?W = _ =>
      edestruct (render_body_cached 10 that arg (opt_context options) (opt_isRequired options)
                                    (opt_isOptional options) W)
        as (w' & Hr & Htr & Hsome);
        [heap_lookup|reflexivity|exact Hflag|reflexivity|cbn; flag_norm; exact Hp
        |cbn; flag_norm; reflexivity|exact Hps|exact Herr|exact Hint|exact Hsp
        |cbn; rewrite Hnames; exact Hent|exact Huse|exact Hch|exact Hres|]
  end.
  rewrite Hr in H. subst o. exists w'. split; [reflexivity|]. split; [exact Htr|exact Hsome].
Qed.


Lemma ensureRootData_fields d :
  flags (ensureRootData d) = flags d
  /\ state (ensureRootData d) = state d
  /\ _renderParent (ensureRootData d) = _renderParent d
  /\ _prepare (ensureRootData d) = _prepare d
  /\ _context (ensureRootData d) = _context d
  /\ _changedAttributesSincePrepare (ensureRootData d) = _changedAttributesSincePrepare d
  /\ _renderCache (ensureRootData d) = _renderCache d
  /\ _prepareResult (ensureRootData d) = _prepareResult d
  /\ _currentlyUsedCache (ensureRootData d) = _currentlyUsedCache d
  /\ childrenData (ensureRootData d) = childrenData d
  /\ match uncommonData (ensureRootData d) with
     | Some u => renderError u
     | None => VNull
     end
     = match uncommonData d with
       | Some u => renderError u
       | None => VNull
       end.
Proof.
  unfold ensureRootData, ensureUncommonData, theUncommonData.
  destruct (uncommonData d) as [u|] eqn:Hu; cbn; rewrite ?Hu; cbn.
  - destruct (rootData u); cbn; rewrite ?Hu; auto 20.
  - auto 20.
Qed.

End Again.



(** ** Context dependencies *)

Lemma strict_eq_refl v : isNaN v = false -> strict_eq v v = true.
Proof.
  destruct v; simpl; intros H; try reflexivity; try discriminate.
  - destruct b; reflexivity.
  - apply Z.eqb_refl.
  - apply String.eqb_refl.
  - apply Nat.eqb_refl.
  - apply Nat.eqb_refl.
  - apply Nat.eqb_refl.
Qed.

Lemma sameValueZero_refl v name : sameValueZero v v name = true.
Proof.
  unfold sameValueZero. destruct (isNaN v) eqn:E.
  - rewrite orb_true_r. reflexivity.
  - rewrite strict_eq_refl by exact E. reflexivity.
Qed.

Section UsedBits.
Variable names : list string.
Variables f g : string -> bool.
Hypothesis f_le_g : forall name, f name = true -> g name = true.

Lemma anyUsedBit_mono i element count : forall j,
  anyUsedBit names f i element j count = true -> anyUsedBit names g i element j count = true.
Proof.
  induction count as [|count IH]; intros j; cbn [anyUsedBit]; [auto|].
  destruct (negb (Z.land element (Z.shiftl 1 (Z.of_nat j)) =? 0)%Z); cbn [andb]; [|apply IH].
  destruct (f _) eqn:Ef.
  - rewrite (f_le_g _ Ef). reflexivity.
  - destruct (g _); [reflexivity|apply IH].
Qed.

Lemma anyUsedFrom_mono bitfield : forall i,
  anyUsedFrom names f i bitfield = true -> anyUsedFrom names g i bitfield = true.
Proof.
  induction bitfield as [|element rest IH]; intros i; cbn [anyUsedFrom]; [auto|].
  destruct (negb (element =? 0)%Z); cbn [andb]; [|apply IH].
  destruct (anyUsedBit names f i element 0 30) eqn:Ef.
  - rewrite (anyUsedBit_mono _ _ _ _ Ef). reflexivity.
  - destruct (anyUsedBit names g i element 0 30); [reflexivity|apply IH].
Qed.
End UsedBits.

(** A context that differs from the previous one only in an attribute the
    component does not use has not changed, as far as it can tell. *)
Lemma didContextChange_unused names context prev used k :
  agreeExcept k context prev ->
  keyUnused names used k = true ->
  didContextChange names (Some context) (Some prev) used = false.
Proof.
  intros Hagree Hk. unfold didContextChange.
  destruct (Context.same context prev); [reflexivity|].
  unfold keyUnused in Hk. apply negb_true_iff in Hk.
  match goal with |- ?x = false => destruct x eqn:E; [|reflexivity] end.
  rewrite <- Hk. symmetry. unfold anyUsedAttribute in *.
  eapply anyUsedFrom_mono; [|exact E].
  intros name Hn. apply String.eqb_eq.
  destruct (String.eqb_spec k name) as [|Hne]; [assumption|].
  cbn beta in Hn. rewrite Hagree in Hn by congruence.
  unfold Context.sameValue in Hn. rewrite sameValueZero_refl in Hn. discriminate.
Qed.

Lemma agreeExcept_trans k a b c : agreeExcept k a b -> agreeExcept k b c -> agreeExcept k a c.
Proof. intros H1 H2 name Hn. rewrite H1, H2 by exact Hn. reflexivity. Qed.

Lemma agreeExcept_refl k a : agreeExcept k a a.
Proof. intros name _. reflexivity. Qed.

Section Unused.
Variable cls : ID -> Class.

(** Computing the context to hand down touches only the children record
    of the parent and the counter of fresh objects. *)
Lemma getModifiedContext_heap_children {X} (π : InternalData -> X) that :
  (forall v d, π (set_childrenData v d) = π d) ->
  frames (heapAgree π) (getModifiedContext cls that).
Proof.
  intros S5. unfold getModifiedContext.
  assert (forall f, frames (heapAgree π) (modData that (modChildrenData f))) as Hmod.
  { intros f. apply frames_heap_modData. intros d. apply S5. }
  assert (forall f, frames (heapAgree π) (modify (w_set_nextObject f))) as Hnext.
  { intros f. apply frames_heap_modify. reflexivity. }
  frames_auto (heapAgree_refl π) (heapAgree_trans π).
  { apply frames_heap_modData. intros d.
    unfold ensureChildrenData. destruct (childrenData d); [reflexivity|apply S5]. }
  destruct (applyModificationsCached _ _ _ _ _) as [[pc c1] f1].
  frames_auto (heapAgree_refl π) (heapAgree_trans π); auto.
  destruct (negb _); frames_auto (heapAgree_refl π) (heapAgree_trans π).
  destruct (applyModificationsCached _ _ _ _ _) as [[pc2 c2] f2].
  frames_auto (heapAgree_refl π) (heapAgree_trans π); auto.
Qed.

Lemma getModifiedContext_names that :
  frames (fun w w' => contextNamesByKey w' = contextNamesByKey w) (getModifiedContext cls that).
Proof.
  set (R := fun w w' : World => contextNamesByKey w' = contextNamesByKey w).
  assert (forall w, R w w) as R_refl by reflexivity.
  assert (forall w1 w2 w3, R w1 w2 -> R w2 w3 -> R w1 w3) as R_trans
      by (unfold R; intros; congruence).
  assert (forall c f, frames R (modData c f)) as Hmod
      by (intros; apply frames_modData; reflexivity).
  assert (forall f, frames R (modify (w_set_nextObject f))) as Hnext
      by (intros; apply frames_modify; reflexivity).
  unfold getModifiedContext.
  frames_auto R_refl R_trans; auto.
  destruct (applyModificationsCached _ _ _ _ _) as [[pc c1] f1].
  frames_auto R_refl R_trans; auto.
  destruct (negb _); frames_auto R_refl R_trans.
  destruct (applyModificationsCached _ _ _ _ _) as [[pc2 c2] f2].
  frames_auto R_refl R_trans; auto.
Qed.

Lemma receivedContext_frames {X} (π : InternalData -> X) parent given w r w1 :
  (forall v d, π (set_childrenData v d) = π d) ->
  receivedContext cls parent given w = Some (r, w1) ->
  (exists context, r = Ok context)
  /\ heapAgree π w w1
  /\ contextNamesByKey w1 = contextNamesByKey w
  /\ trace w1 = trace w.
Proof.
  intros Hπ H. unfold receivedContext in H.
  destruct given as [c|]; [inversion H; subst; repeat split; eauto; apply heapAgree_refl|].
  destruct parent as [p|]; [|inversion H; subst; repeat split; eauto; apply heapAgree_refl].
  repeat split.
  - exact (getModifiedContext_returns cls p _ _ _ H).
  - exact (getModifiedContext_heap_children π p Hπ _ _ _ H).
  - exact (getModifiedContext_names p _ _ _ H).
  - destruct (getModifiedContext_trace cls (fun _ => False) p _ _ _ H) as (evs & E & F).
    destruct evs as [|ev evs]; [rewrite app_nil_r in E; exact E|].
    inversion F; contradiction.
Qed.

(** C6. A component receives a context that differs from its previous one
    only in an attribute [k] that is not among the attributes it recorded as
    used.  Then [_updateContext] leaves its prepare cache and its render
    cache as they were, and every render-cache entry that was recorded under
    a context agreeing with the previous one (but for [k]) and that did not
    use [k] is still found reusable on the next pass, unless [shouldRender]
    asks for a fresh render: the context change does not make [doRender] run
    again. *)
Theorem unused_context_key_keeps_caches that parent given k w d prev r w' :
  heap w !! that = Some d ->
  _context d = Some prev ->
  keyUnused (contextNamesByKey w) (_usedContextAttributes d) k = true ->
  (forall context w1,
      receivedContext cls parent given w = Some (Ok context, w1) ->
      agreeExcept k context prev) ->
  _updateContext cls that parent given w = Some (r, w') ->
  exists d',
    heap w' !! that = Some d'
    /\ cachesOf d' = cachesOf d
    /\ forall arg e cached,
        rc_getEntry (_renderCache d') arg = Some e ->
        ce_context e = Some cached ->
        agreeExcept k prev cached ->
        keyUnused (contextNamesByKey w') (ce_usedContextAttributes e) k = true ->
        reusableEntry cls that (contextNamesByKey w') d' arg
        = if shouldRender (cls that) (state d') arg (_prepareResult d') then None else Some e.
Proof.
  intros Hd Hprev Hk Hrecv H.
  unfold _updateContext in H. fwd H. rewrite Hprev in H.
  bind_split H Hc.
  2:{ apply (receivedContext_frames allButChildren) in Hc as [[? ?] _]; [discriminate|reflexivity]. }
  pose proof (Hrecv _ _ Hc) as Hagree.
  apply (receivedContext_frames allButChildren) in Hc as (_ & Hheap & Hnames & _); [|reflexivity].
  destruct (heapAgree_lookup _ _ _ _ _ Hheap Hd) as (d1 & Hd1 & Hsame).
  unfold allButChildren in Hsame. injection Hsame as Ef Ei Est Ech Ectx Eb Euc Ep Epr Erc Erp Err Eu Epe Epc Eud.
  assert (forall d' names',
             cachesOf d' = cachesOf d1 -> state d' = state d1 ->
             (exists c', _context d' = Some c' /\ agreeExcept k c' prev) ->
             forall arg e cached,
               rc_getEntry (_renderCache d') arg = Some e ->
               ce_context e = Some cached ->
               agreeExcept k prev cached ->
               keyUnused names' (ce_usedContextAttributes e) k = true ->
               reusableEntry cls that names' d' arg
               = if shouldRender (cls that) (state d') arg (_prepareResult d')
                 then None else Some e) as Hreuse.
  { intros d' names' Hcaches Hst (c' & Hc' & Hag) arg e cached He Hcached Hpc Hke.
    unfold reusableEntry. rewrite He, Hc', Hcached.
    rewrite (didContextChange_unused names' c' cached _ k); [reflexivity| |exact Hke].
    eapply agreeExcept_trans; eassumption. }
  assert (cachesOf d1 = cachesOf d) as Hc1 by (unfold cachesOf; congruence).
  destruct (Context.same a prev) eqn:Hs; cbn [negb] in H.
  - inversion H; subst. exists d1. split; [exact Hd1|]. split; [exact Hc1|].
    apply Hreuse; [reflexivity|reflexivity|].
    exists prev. split; [congruence|apply agreeExcept_refl].
  - repeat fwd H.
    rewrite (didContextChange_unused _ a prev _ k) in H;
      [|exact Hagree|rewrite Hnames, Eu; exact Hk].
    rewrite when_false in H. repeat fwd H.
    match type of H with
    | when ?b _ _ = _ => destruct b; [rewrite when_true in H|rewrite when_false in H]
    end.
    all: inversion H; subst; clear H; cbn.
    all: rewrite lookup_insert_eq; eexists; (split; [reflexivity|]).
    all: split; [rewrite <- Hc1; reflexivity|].
    all: apply Hreuse; [reflexivity|reflexivity|].
    all: exists a; split; [reflexivity|exact Hagree].
Qed.
End Unused.

Local Open Scope string_scope.

Lemma unused_context_key_witness :
  exists d',
    heap providerAfter !! 2 = Some d'
    /\ cachesOf d' = cachesOf providerChild
    /\ forall arg e cached,
        rc_getEntry (_renderCache d') arg = Some e ->
        ce_context e = Some cached ->
        agreeExcept "theme" providerPrevious cached ->
        keyUnused (contextNamesByKey providerAfter) (ce_usedContextAttributes e) "theme" = true ->
        reusableEntry providerClasses 2 (contextNamesByKey providerAfter) d' arg
        = if shouldRender (providerClasses 2) (state d') arg (_prepareResult d')
          then None else Some e.
Proof.
  apply (unused_context_key_keeps_caches providerClasses 2 (Some 1) None "theme"
           providerMidPass providerChild providerPrevious (Ok tt) providerAfter).
  - vm_compute. reflexivity.
  - vm_compute. reflexivity.
  - vm_compute. reflexivity.
  - intros context w1 Hc.
    assert (outcomeOf (receivedContext providerClasses (Some 1) None providerMidPass)
            = Some (Ok context)) as E by (rewrite Hc; reflexivity).
    vm_compute in E. injection E as <-.
    intros name Hne. unfold Context.attr.
    let v := eval vm_compute in providerPrevious in change providerPrevious with v.
    cbn. destruct (String.eqb_spec name "theme") as [->|_]; [contradiction|reflexivity].
  - vm_compute. reflexivity.
Defined.

(** The two readers side by side: after the parent's [theme] changed, the
    child that reads only [locale] is notified of the new context and served
    from its cache; the child that reads [theme] is prepared and rendered
    again. *)
Lemma context_dependency_examples :
  eventsOf 2 (traceOf (themeChange providerClasses) (providerWorld providerClasses))
  = [EvReceiveContext 2 None; EvAppear 2; EvMount 2; EvDoPrepare 2; EvDoRender 2 VUndef VNull;
     EvReceiveContext 2 (Some providerPrevious); EvCachedRender 2 (VStr "en")]
  /\ eventsOf 2 (traceOf (themeChange themedClasses) (providerWorld themedClasses))
     = [EvReceiveContext 2 None; EvAppear 2; EvMount 2; EvDoPrepare 2; EvDoRender 2 VUndef VNull;
        EvReceiveContext 2 (Some providerPrevious); EvDoPrepare 2; EvDoRender 2 VUndef VNull]
  /\ outcomesOf (themeChange themedClasses) (providerWorld themedClasses)
     = Some [Ok (VNum 1); Ok VUndef; Ok (VNum 2)].
Proof. vm_compute. repeat split. Qed.

Local Close Scope string_scope.

(** As [frames_auto], but by the syntax of the computation only: no
    definition is unfolded. *)
Ltac frames_syn lifecycle_refl lifecycle_trans :=
  repeat lazymatch goal with
    | |- frames _ (bind _ _) => apply (frames_bind _ lifecycle_trans); [|intros ?]
    | |- frames _ (ret _) => apply (frames_ret _ lifecycle_refl)
    | |- frames _ (getData _) => apply (frames_getData _ lifecycle_refl)
    | |- frames _ (gets _) => apply (frames_gets _ lifecycle_refl)
    | |- frames _ (when _ _) => apply (frames_when _ lifecycle_refl)
    | |- frames _ (throw _) => apply (frames_throw _ lifecycle_refl)
    | |- frames _ (modData _ _) => apply frames_trace_modData
    end.

Ltac returns_syn :=
  repeat lazymatch goal with
    | |- returns (bind _ _) => apply returns_bind; [|intros ?]
    | |- returns (ret _) => apply returns_ret
    | |- returns (getData _) => apply returns_getData
    | |- returns (gets _) => apply returns_gets
    | |- returns (when _ _) => apply returns_when
    | |- returns (modData _ _) => apply returns_modData
    | |- returns (modify _) => apply returns_modify
    | |- returns (logEv _) => apply returns_modify
    end.

Section Reuse.
Variable cls : ID -> Class.
Variable gas : nat.
Variable rec : Call -> M Val.

Lemma lifecycle_refl w : traceGrows isLifecycle w w.
Proof. apply traceGrows_refl. Qed.

Lemma lifecycle_trans w1 w2 w3 :
  traceGrows isLifecycle w1 w2 -> traceGrows isLifecycle w2 w3 -> traceGrows isLifecycle w1 w3.
Proof. apply traceGrows_trans. Qed.

Lemma unmountFromParent_lifecycle fuel : forall that parent,
  frames (traceGrows isLifecycle) (_unmountFromParent fuel that parent).
Proof.
  induction fuel as [|n IH]; intros that parent; simpl; [apply frames_stuck|].
  frames_auto lifecycle_refl lifecycle_trans; try apply frames_trace_modData.
  - destruct (childrenData _); [|apply (frames_ret _ lifecycle_refl)].
    apply (frames_forEach _ lifecycle_refl lifecycle_trans). intros kv. apply IH.
  - apply frames_trace_logEv. exact I.
  - apply frames_modify. intros. apply traceGrows_same. reflexivity.
  - apply frames_modify. intros w. apply traceGrows_same. unfold scheduleDisappearHandlers.
    destruct (disappearHandlersTimeout w); reflexivity.
Qed.

Lemma updateContext_lifecycle that parent given :
  frames (traceGrows isLifecycle) (_updateContext cls that parent given).
Proof.
  intros w r w' H. destruct (updateContext_trace cls _ _ _ _ _ _ H) as (evs & E & F).
  exists evs. split; [exact E|]. eapply Forall_impl; [exact F|].
  intros ev [prev ->]. exact I.
Qed.

Lemma remount_lifecycle that wasMounted prevParent newParent context :
  frames (traceGrows isLifecycle) (_remount cls gas that wasMounted prevParent newParent context).
Proof.
  unfold _remount.
  apply (frames_bind _ lifecycle_trans); [apply (frames_when _ lifecycle_refl), unmountFromParent_lifecycle|].
  intros _. apply (frames_bind _ lifecycle_trans); [apply updateContext_lifecycle|intros _].
  frames_auto lifecycle_refl lifecycle_trans; apply frames_trace_logEv; exact I.
Qed.

Lemma useCache_lifecycle : forall e that, frames (traceGrows isLifecycle) (_useCache cls gas that e).
Proof.
  fix IH 1. intros [uid result inst children ectx eused cnt] that. cbn [_useCache].
  frames_syn lifecycle_refl lifecycle_trans.
  - destruct (_renderParent _); [apply frames_trace_modData|apply (frames_ret _ lifecycle_refl)].
  - apply frames_trace_logEv. exact I.
  - destruct (ID_eqb _ _); frames_syn lifecycle_refl lifecycle_trans.
    destruct children as [ch|]; [|apply (frames_ret _ lifecycle_refl)].
    induction ch as [|[key entry] rest IHrest]; [apply (frames_ret _ lifecycle_refl)|].
    frames_syn lifecycle_refl lifecycle_trans.
    + apply remount_lifecycle.
    + apply IH.
    + exact IHrest.
Qed.

Lemma unmountFromParent_returns fuel : forall that parent,
  returns (_unmountFromParent fuel that parent).
Proof.
  induction fuel as [|n IH]; intros that parent; cbn [_unmountFromParent].
  - intros w r w' H. discriminate.
  - returns_syn.
    match goal with |- returns (if ?c then _ else _) => destruct c end; returns_syn.
    + destruct (childrenData _); [|apply returns_ret].
      apply returns_forEach. intros kv. apply IH.
    + apply returns_modify.
Qed.

Lemma remount_returns that wasMounted prevParent newParent context :
  returns (_remount cls gas that wasMounted prevParent newParent context).
Proof.
  unfold _remount. returns_syn.
  - apply unmountFromParent_returns.
  - apply updateContext_returns.
Qed.

Lemma useCache_returns : forall e that, returns (_useCache cls gas that e).
Proof.
  fix IH 1. intros [uid result inst children ectx eused cnt] that. cbn [_useCache].
  returns_syn.
  - destruct (_renderParent _); returns_syn.
  - destruct (ID_eqb _ _); returns_syn.
    destruct children as [ch|]; [|apply returns_ret].
    induction ch as [|[key entry] rest IHrest]; [apply returns_ret|].
    returns_syn.
    + apply remount_returns.
    + apply IH.
    + exact IHrest.
Qed.

End Reuse.

(** ** The general facts at work *)

Local Open Scope string_scope.

Lemma scan_setEntry_existing_witness :
  (Cache.entries (Cache.setEntry fullScanCache (VStr "a") 3)).*1 = (Cache.entries fullScanCache).*1
  /\ Cache.getEntry (Cache.setEntry fullScanCache (VStr "a") 3) (VStr "a") = Some 3.
Proof.
  apply (scan_setEntry_existing fullScanCache (VStr "a") 3).
  vm_compute. discriminate.
Defined.

Lemma interrupt_request_marks_pass_witness :
  isRenderInterrupted (renderState uninterruptedPassWorld) = false
  /\ isRenderInterrupted (renderState (worldOf interruptBegun uninterruptedPassWorld)) = true.
Proof.
  split; [reflexivity|].
  apply (interrupt_request_marks_pass interruptClasses testClock 2 false
           uninterruptedPassWorld None).
  vm_compute. reflexivity.
Defined.


Local Close Scope string_scope.
